(** * bash-match: the option-to-shell-invocation compiler of [index.js]

    A shallow embedding of [index.js] (micromatch/bash-match) and the
    properties of its option normaliser ([createOptions]), command compiler
    ([cmd]), result interpretation (the body of [bash]) and batch wrapper
    ([bash.match]).

    Modelling choices, all read off the source:
    - a JavaScript string is a [string]; each character stands for one code
      unit in the range 0..255;
    - a JavaScript value is a [value]; numbers are restricted to integers,
      objects are references into a heap of plain (non-callable) objects that
      inherit from [Object.prototype] and have enumerable data properties
      only (no accessor, no own key [__proto__]);
    - an object is the list of its own properties in insertion order, so
      that [for (key in o)] can be replayed; an own property shadows the
      inherited one of the same name, [hasOwnProperty] included;
    - the process is a [state]: the heap, the module variable [bashPath] and
      the log of the calls made to [spawn.sync];
    - everything the module imports ([process.cwd], [is-windows],
      [fs-exists-sync], [cross-spawn]) is a field of the environment [env];
    - a function of the source is a computation [M A]: it takes a state and
      gives back a completion (a value or a thrown exception) and a state. *)

From Stdlib Require Import Bool Arith ZArith NArith List Ascii String Lia.
Import ListNotations.
Open Scope string_scope.
Open Scope list_scope.

(** ** Strings *)

Module JsString.

(** The double quote and the line feed, which the script literal of [cmd]
    contains. *)
Definition dquote : string := String "034"%char EmptyString.
Definition newline : string := String "010"%char EmptyString.

(** [s ? true : false] for a string [s]: the empty string is falsy. *)
Definition nonempty (s : string) : bool :=
  match s with
  | EmptyString => false
  | String _ _ => true
  end.

(** [String.prototype.indexOf]: position of the first occurrence of [sub]
    in [s], or [-1]. *)
Fixpoint indexOf_from (s sub : string) (i : Z) : Z :=
  match s with
  | EmptyString => if prefix sub EmptyString then i else (-1)%Z
  | String _ rest => if prefix sub s then i else indexOf_from rest sub (i + 1)
  end.

Definition indexOf (s sub : string) : Z := indexOf_from s sub 0.

(** White space and line terminators, as [String.prototype.trim] strips them
    (code units below 256: TAB, LF, VT, FF, CR, SP and NBSP). *)
Definition is_space (c : ascii) : bool :=
  let n := N_of_ascii c in
  (((9 <=? n) && (n <=? 13)) || (n =? 32) || (n =? 160))%N.

Fixpoint trimStart (s : string) : string :=
  match s with
  | EmptyString => EmptyString
  | String c rest => if is_space c then trimStart rest else s
  end.

Fixpoint trimEnd (s : string) : string :=
  match s with
  | EmptyString => EmptyString
  | String c rest =>
      match trimEnd rest with
      | EmptyString => if is_space c then EmptyString else String c EmptyString
      | kept => String c kept
      end
  end.

Definition trim (s : string) : string := trimEnd (trimStart s).

(** A canonical array index: the decimal numeral, without leading zero, of a
    number below 2^32 - 1. Such keys are enumerated first by [for-in]. *)
Definition digit_of (c : ascii) : option N :=
  let n := N_of_ascii c in
  if ((48 <=? n) && (n <=? 57))%N then Some (n - 48)%N else None.

Fixpoint parse_digits (s : string) (acc : N) : option N :=
  match s with
  | EmptyString => Some acc
  | String c rest =>
      match digit_of c with
      | Some d => parse_digits rest (acc * 10 + d)%N
      | None => None
      end
  end.

Definition array_index (k : string) : option N :=
  match k with
  | EmptyString => None
  | String c rest =>
      if (c =? "0")%char && nonempty rest then None
      else match parse_digits k 0 with
           | Some n => if (n <? 4294967295)%N then Some n else None
           | None => None
           end
  end.

Definition is_array_index (k : string) : bool :=
  match array_index k with
  | Some _ => true
  | None => false
  end.

End JsString.
Import JsString.

(** [Array.prototype.indexOf] on an array of strings. *)
Fixpoint array_indexOf_from (l : list string) (x : string) (i : Z) : Z :=
  match l with
  | [] => (-1)%Z
  | y :: rest => if (y =? x)%string then i else array_indexOf_from rest x (i + 1)
  end.

Definition array_indexOf (l : list string) (x : string) : Z :=
  array_indexOf_from l x 0.

(** ** Values and objects *)

Definition ref := nat.

Inductive value : Type :=
| VUndefined
| VNull
| VBool (b : bool)
| VNum (z : Z)
| VStr (s : string)
| VObj (r : ref).

(** [v ? true : false]. *)
Definition truthy (v : value) : bool :=
  match v with
  | VUndefined | VNull => false
  | VBool b => b
  | VNum z => negb (z =? 0)%Z
  | VStr s => nonempty s
  | VObj _ => true
  end.

(** [v === true]. *)
Definition is_true (v : value) : bool :=
  match v with
  | VBool true => true
  | _ => false
  end.

Module Obj.

(** Own enumerable properties, oldest first. *)
Definition props := list (string * value).

Definition keys (o : props) : list string := map fst o.

Fixpoint get (o : props) (k : string) : value :=
  match o with
  | [] => VUndefined
  | (k', v) :: rest => if (k' =? k)%string then v else get rest k
  end.

Fixpoint has (o : props) (k : string) : bool :=
  match o with
  | [] => false
  | (k', _) :: rest => if (k' =? k)%string then true else has rest k
  end.

(** [o[k] = v]: an existing property keeps its place, a new one goes last. *)
Fixpoint set (o : props) (k : string) (v : value) : props :=
  match o with
  | [] => [(k, v)]
  | (k', v') :: rest =>
      if (k' =? k)%string then (k, v) :: rest else (k', v') :: set rest k v
  end.

(** Enumeration order of [for (key in o)] on the own properties: array
    indices in ascending numeric order, then the other keys in insertion
    order. *)
Fixpoint insert_index (e : N * string) (l : list (N * string)) : list (N * string) :=
  match l with
  | [] => [e]
  | x :: rest => if (fst e <=? fst x)%N then e :: l else x :: insert_index e rest
  end.

Fixpoint index_keys (ks : list string) : list (N * string) :=
  match ks with
  | [] => []
  | k :: rest =>
      match array_index k with
      | Some n => insert_index (n, k) (index_keys rest)
      | None => index_keys rest
      end
  end.

Definition for_in (o : props) : list string :=
  map snd (index_keys (keys o))
  ++ filter (fun k => negb (is_array_index k)) (keys o).

End Obj.

Definition heap := list Obj.props.

(** The object a reference points to; a dangling reference reads as the
    empty object. *)
Definition deref (h : heap) (r : ref) : Obj.props := nth r h [].

Fixpoint update (h : heap) (r : ref) (o : Obj.props) : heap :=
  match h, r with
  | [], _ => []
  | _ :: rest, O => o :: rest
  | x :: rest, S r' => x :: update rest r' o
  end.

(** ** Exceptions, environment, process state *)

Inductive thrown : Type :=
| JsTypeError (msg : string)     (* new TypeError(msg) *)
| JsError (msg : string)         (* new Error(msg) *)
| JsString (s : string)          (* throw of a plain string *)
| Foreign (what : string).       (* raised inside an imported module *)

Inductive completion (A : Type) : Type :=
| Normal (a : A)
| Abrupt (e : thrown).
Arguments Normal {A} a.
Arguments Abrupt {A} e.

(** What [spawn.sync] gives back: the two captured streams, already decoded
    by [Buffer.prototype.toString] ([None] is a [null] stream), or an
    exception. *)
Record spawn_result : Type := SpawnResult {
  stdout : option string;
  stderr : option string
}.

Record env : Type := Env {
  process_cwd : string;
  isWindows : bool;
  exists_sync : string -> bool;
  spawn_sync : string -> list string -> Obj.props -> completion spawn_result
}.

Record state : Type := State {
  st_heap : heap;
  bashPath : option string;
  spawned : list (string * list string)
}.

(** The own properties a value shows to a reader: those of the object it
    refers to, none for a primitive. *)
Definition content (st : state) (v : value) : Obj.props :=
  match v with
  | VObj r => deref (st_heap st) r
  | _ => []
  end.

Definition M (A : Type) : Type := state -> completion A * state.

Definition ret {A} (a : A) : M A := fun st => (Normal a, st).

Definition throw {A} (e : thrown) : M A := fun st => (Abrupt e, st).

Definition bind {A B} (m : M A) (k : A -> M B) : M B :=
  fun st =>
    match m st with
    | (Normal a, st') => k a st'
    | (Abrupt e, st') => (Abrupt e, st')
    end.

Definition try_catch {A} (body : M A) (handler : thrown -> M A) : M A :=
  fun st =>
    match body st with
    | (Normal a, st') => (Normal a, st')
    | (Abrupt e, st') => handler e st'
    end.

Notation "x <- m ;; k" := (bind m (fun x => k))
  (at level 61, m at next level, right associativity).
Notation "m ;;; k" := (bind m (fun _ => k))
  (at level 61, right associativity).

Definition when (b : bool) (m : M unit) : M unit := if b then m else ret tt.

(** ** Heap operations *)

(** An object literal: a fresh object. *)
Definition alloc (o : Obj.props) : M ref :=
  fun st =>
    (Normal (List.length (st_heap st)),
     State (st_heap st ++ [o]) (bashPath st) (spawned st)).

(** [v.k] and [v[k]], for the keys this module reads (none of them is a
    property of [Object.prototype] or of a primitive wrapper). *)
Definition Get (v : value) (k : string) : M value :=
  fun st =>
    match v with
    | VObj r => (Normal (Obj.get (deref (st_heap st) r) k), st)
    | VUndefined | VNull =>
        (Abrupt (JsTypeError "Cannot read property of undefined or null"), st)
    | VBool _ | VNum _ | VStr _ => (Normal VUndefined, st)
    end.

(** [r[k] = v]. *)
Definition Put (r : ref) (k : string) (v : value) : M unit :=
  fun st =>
    (Normal tt,
     State (update (st_heap st) r (Obj.set (deref (st_heap st) r) k v))
           (bashPath st) (spawned st)).

(** The keys [for (key in r)] goes through, fixed when the loop starts. *)
Definition enumerate (r : ref) : M (list string) :=
  fun st => (Normal (Obj.for_in (deref (st_heap st) r)), st).

(** The method call [r.hasOwnProperty(k)]. The method is looked up on the
    object first: an own property of that name shadows the one of
    [Object.prototype], and no value of the model is callable. *)
Definition call_hasOwnProperty (r : ref) (k : string) : M bool :=
  fun st =>
    let o := deref (st_heap st) r in
    if Obj.has o "hasOwnProperty"
    then (Abrupt (JsTypeError "hasOwnProperty is not a function"), st)
    else (Normal (Obj.has o k), st).

(** ** Imported pure modules *)

(** Modelled from the spec: [extend] is the imported module extend-shallow,
    whose code is not part of the sources. The spec has it shallow-merge the
    raw options over the base record: every own enumerable property of
    [obj] is assigned to [o], other arguments than objects are skipped. *)
Fixpoint assign (a b : ref) (ks : list string) : M unit :=
  match ks with
  | [] => ret tt
  | key :: rest =>
      v <- Get (VObj b) key ;;
      Put a key v ;;;
      assign a b rest
  end.

Definition extend (o : ref) (obj : value) : M ref :=
  match obj with
  | VObj b =>
      ks <- enumerate b ;;
      assign o b ks ;;;
      ret o
  | _ => ret o
  end.

(** Modelled from the spec: [isExtglob] is the imported module is-extglob,
    whose code is not part of the sources. The spec has it recognise a
    pattern that contains one of [?], [*], [+], [@], [!] immediately
    followed by an opening parenthesis. *)
Definition extglob_prefix (c : ascii) : bool :=
  ((c =? "?") || (c =? "*") || (c =? "+") || (c =? "@") || (c =? "!"))%char.

Fixpoint isExtglob (s : string) : bool :=
  match s with
  | EmptyString => false
  | String c rest =>
      match rest with
      | String "(" _ => if extglob_prefix c then true else isExtglob rest
      | _ => isExtglob rest
      end
  end.

(** ** The module [index.js] *)

Inductive subjects : Type :=
| OneSubject (v : value)          (* anything [Array.isArray] rejects *)
| ArrayOf (l : list value).

Definition valid : list string :=
  ["dotglob"; "extglob"; "failglob"; "globstar"; "nocaseglob"; "nullglob"].

(** The script literal of [cmd]; [\n] in the source is a line feed. *)
Definition script (str pattern : string) : string :=
  (("IFS=$" ++ dquote ++ newline ++ dquote ++ "; if [[ " ++ dquote)
   ++ str ++ (dquote ++ " = ") ++ pattern ++ " ]]; then echo true; fi")%string.

Section Index.

Variable E : env.

(** [toString(buf)]: [(buf && buf.toString() || '').trim()]. *)
Definition toString (buf : option string) : string :=
  trim (match buf with
        | Some s => if nonempty s then s else ""
        | None => ""
        end).

(** [handleError(err, options)]. *)
Definition handleError (err : thrown) (options : value) : M bool :=
  strict <- (if truthy options
             then v <- Get options "strictErrors" ;; ret (is_true v)
             else ret false) ;;
  if strict then throw err else ret false.

(** [createOptions(pattern, options)]. *)
Definition createOptions (pattern : string) (options : value) : M value :=
  normalized <- (if truthy options
                 then v <- Get options "normalized" ;; ret (is_true v)
                 else ret false) ;;
  if normalized then ret options else
  base <- alloc [("cwd", VStr (process_cwd E))] ;;
  opts <- extend base options ;;
  nocase <- Get (VObj opts) "nocase" ;;
  when (is_true nocase) (Put opts "nocaseglob" (VBool true)) ;;;
  nonull <- Get (VObj opts) "nonull" ;;
  when (is_true nonull) (Put opts "nullglob" (VBool true)) ;;;
  dot <- Get (VObj opts) "dot" ;;
  when (is_true dot) (Put opts "dotglob" (VBool true)) ;;;
  own <- call_hasOwnProperty opts "globstar" ;;
  when (negb own && negb (indexOf pattern "**" =? -1)%Z)
       (Put opts "globstar" (VBool true)) ;;;
  own <- call_hasOwnProperty opts "extglob" ;;
  when (negb own && isExtglob pattern) (Put opts "extglob" (VBool true)) ;;;
  Put opts "normalized" (VBool true) ;;;
  ret (VObj opts).

(** [getBashPath()]. *)
Definition getBashPath : M string :=
  fun st =>
    let probe :=
      if exists_sync E "/usr/local/bin/bash" then "/usr/local/bin/bash"
      else if exists_sync E "/bin/bash" then "/bin/bash"
      else "bash" in
    match bashPath st with
    | Some p =>
        if nonempty p then (Normal p, st)
        else (Normal probe, State (st_heap st) (Some probe) (spawned st))
    | None => (Normal probe, State (st_heap st) (Some probe) (spawned st))
    end.

(** The loop of [cmd] over the keys of [options]. *)
Fixpoint cmd_loop (options : ref) (ks : list string) (args : list string)
  : M (list string) :=
  match ks with
  | [] => ret args
  | key :: rest =>
      own <- call_hasOwnProperty options key ;;
      cmd_loop options rest
        (if own && negb (array_indexOf valid key =? -1)%Z
         then args ++ ["-O"; key] else args)
  end.

(** [cmd(str, pattern, options)]. On anything but an object the loop adds
    nothing. *)
Definition cmd (str pattern : string) (options : value) : M (list string) :=
  args <- match options with
          | VObj r => ks <- enumerate r ;; cmd_loop r ks []
          | _ => ret []
          end ;;
  ret (args ++ ["-c"; script str pattern]).

(** [spawn.sync(path, args, opts)]: the call is logged, the environment
    answers. *)
Definition spawn (path : string) (args : list string) (opts : value)
  : M spawn_result :=
  fun st =>
    (spawn_sync E path args (content st opts),
     State (st_heap st) (bashPath st) (spawned st ++ [(path, args)])).

(** [bash(str, pattern, options)]. The variable [opts] is declared in the
    [try] block and read in the [catch] clause: it is still [undefined]
    there when [createOptions] is what threw. *)
Definition bash (str pattern options : value) : M bool :=
  match str with
  | VStr s =>
      match pattern with
      | VStr p =>
          if isWindows E
          then throw (JsError "bash-match does not work on windows")
          else
            fun st =>
              match createOptions p options st with
              | (Abrupt e, st1) => handleError e VUndefined st1
              | (Normal opts, st1) =>
                  try_catch
                    (path <- getBashPath ;;
                     args <- cmd s p opts ;;
                     res <- spawn path args opts ;;
                     let err := toString (stderr res) in
                     if nonempty err
                     then handleError (JsString err) opts
                     else ret (negb (negb (nonempty (toString (stdout res))))))
                    (fun e => handleError e opts) st1
              end
      | _ => throw (JsTypeError "expected a string")
      end
  | _ => throw (JsTypeError "expected a string")
  end.

(** [bash.isMatch(fixture, pattern, options)]. *)
Definition isMatch (fixture pattern options : value) : M bool :=
  bash fixture pattern options.

(** The [while] loop of [bash.match] over the elements of [list]. *)
Fixpoint match_loop (elements : list value) (pattern options : value)
  (matches : list value) : M (list value) :=
  match elements with
  | [] => ret matches
  | fixture :: rest =>
      hit <- isMatch fixture pattern options ;;
      match_loop rest pattern options
        (if hit then matches ++ [fixture] else matches)
  end.

(** [bash.match(list, pattern, options)]. *)
Definition bash_match (list : subjects) (pattern options : value)
  : M (Datatypes.list value) :=
  let list := match list with
              | ArrayOf l => l
              | OneSubject v => [v]
              end in
  match_loop list pattern options [].

End Index.

(** ** Closed forms

    What the stateful code above computes, written as functions of the raw
    record. They are proof devices: each is shown below to agree with the
    code it summarises. *)

Definition set_if (b : bool) (o : Obj.props) (k : string) (v : value) : Obj.props :=
  if b then Obj.set o k v else o.

(** [extend({cwd: cwd}, raw)]. *)
Definition merged (cwd : string) (raw : Obj.props) : Obj.props :=
  fold_left (fun a key => Obj.set a key (Obj.get raw key))
            (Obj.for_in raw) [("cwd", VStr cwd)].

(** The record after the three alias lines of [createOptions]. *)
Definition aliased (cwd : string) (raw : Obj.props) : Obj.props :=
  let a := merged cwd raw in
  let a := set_if (is_true (Obj.get a "nocase")) a "nocaseglob" (VBool true) in
  let a := set_if (is_true (Obj.get a "nonull")) a "nullglob" (VBool true) in
  set_if (is_true (Obj.get a "dot")) a "dotglob" (VBool true).

(** The record [createOptions] builds when it does not return early. *)
Definition canonical (cwd pattern : string) (raw : Obj.props) : Obj.props :=
  let a := aliased cwd raw in
  let a := set_if (negb (Obj.has a "globstar")
                   && negb (indexOf pattern "**" =? -1)%Z)
                  a "globstar" (VBool true) in
  let a := set_if (negb (Obj.has a "extglob") && isExtglob pattern)
                  a "extglob" (VBool true) in
  Obj.set a "normalized" (VBool true).

Definition is_valid (k : string) : bool :=
  negb (array_indexOf valid k =? -1)%Z.

(** The arguments the loop of [cmd] pushes for the record [o]. *)
Definition toggle_args (o : Obj.props) : list string :=
  flat_map (fun k => if Obj.has o k && is_valid k then ["-O"; k] else [])
           (Obj.for_in o).

(** The names that follow an [-O] flag in an argument list. *)
Fixpoint option_names (args : list string) : list string :=
  match args with
  | [] => []
  | flag :: rest =>
      match rest with
      | name :: rest' =>
          if (flag =? "-O")%string then name :: option_names rest'
          else option_names rest
      | [] => []
      end
  end.

(** [k] is present in [o] with a truthy value. *)
Definition enabled (o : Obj.props) (k : string) : bool :=
  Obj.has o k && truthy (Obj.get o k).

(** The record carries [normalized === true]. *)
Definition marked (st : state) (options : value) : bool :=
  is_true (Obj.get (content st options) "normalized").

(** The reference is live: it points into the heap. *)
Definition live (st : state) (v : value) : Prop :=
  match v with
  | VObj r => r < List.length (st_heap st)
  | _ => True
  end.

(** The path [getBashPath] settles on when nothing is cached. *)
Definition probed (E : env) : string :=
  if exists_sync E "/usr/local/bin/bash" then "/usr/local/bin/bash"
  else if exists_sync E "/bin/bash" then "/bin/bash"
  else "bash".

(** The path [getBashPath] answers in the state [st]: the cached one if
    there is one, the probed one otherwise. *)
Definition effective_path (E : env) (st : state) : string :=
  match bashPath st with
  | Some p => if nonempty p then p else probed E
  | None => probed E
  end.

(** What [handleError(err, options)] does for a record [o]. *)
Definition handled (err : thrown) (o : Obj.props) : completion bool :=
  if is_true (Obj.get o "strictErrors") then Abrupt err else Normal false.

(** The [try] statement of [bash] for the canonical record [o], the shell
    being found at [path]. *)
Definition outcome (E : env) (path str pattern : string) (o : Obj.props)
  : completion bool :=
  if Obj.has o "hasOwnProperty"
  then handled (JsTypeError "hasOwnProperty is not a function") o
  else
    match spawn_sync E path
                     (toggle_args o ++ ["-c"; script str pattern]) o with
    | Abrupt e => handled e o
    | Normal res =>
        if nonempty (toString (stderr res))
        then handled (JsString (toString (stderr res))) o
        else Normal (nonempty (toString (stdout res)))
    end.

(** [bash(str, pattern, options)] on a POSIX platform, for the raw record
    [raw]. *)
Definition verdict (E : env) (path str pattern : string) (raw : Obj.props)
  : completion bool :=
  if is_true (Obj.get raw "normalized") then outcome E path str pattern raw
  else if Obj.has raw "hasOwnProperty" then Normal false
  else outcome E path str pattern (canonical (process_cwd E) pattern raw).

(** The completion is the value [true]. *)
Definition returns_true (c : completion bool) : bool :=
  match c with
  | Normal true => true
  | _ => false
  end.

(** Every character of the string is white space. *)
Fixpoint all_space (s : string) : bool :=
  match s with
  | EmptyString => true
  | String c rest => is_space c && all_space rest
  end.

Definition first_char (s : string) : option ascii :=
  match s with
  | EmptyString => None
  | String c _ => Some c
  end.

Fixpoint last_char (s : string) : option ascii :=
  match s with
  | EmptyString => None
  | String c rest =>
      match last_char rest with
      | None => Some c
      | found => found
      end
  end.

(** The record the shell is run with, for the raw record [raw]: the raw
    record itself when it is marked [normalized], the canonical one
    otherwise. *)
Definition seen (E : env) (pattern : string) (raw : Obj.props) : Obj.props :=
  if is_true (Obj.get raw "normalized") then raw
  else canonical (process_cwd E) pattern raw.

(** The elements of [l] that [mask] keeps, in the order of [l]. *)
Fixpoint select (l : list value) (mask : list bool) : list value :=
  match l, mask with
  | x :: l', keep :: mask' =>
      if keep then x :: select l' mask' else select l' mask'
  | _, _ => []
  end.

(** ** The earlier variant of the module

    The second source file of the repository has the same [toString],
    [handleError], [getBashPath], [bash.isMatch] and [bash.match]; its [bash]
    does not normalise options, always turns [extglob] and [globstar] on
    inside the script, and runs a pattern that contains [echo] as the script
    itself. *)

Module Legacy.

(** The script literal of the earlier [bash]. *)
Definition wrapped (str pattern : string) : string :=
  (("IFS=$" ++ dquote ++ newline ++ dquote
    ++ "; shopt -s extglob && shopt -s globstar; if [[ " ++ dquote)
   ++ str ++ (dquote ++ " = ") ++ pattern ++ " ]]; then echo true; fi")%string.

(** [/echo/.test(cmd)]: the text contains [echo]. *)
Definition mentions_echo (cmd : string) : bool :=
  negb (indexOf cmd "echo" =? -1)%Z.

(** [bash(str, pattern, options)] of the earlier variant. *)
Definition bash (E : env) (str pattern options : value) : M bool :=
  match str with
  | VStr s =>
      match pattern with
      | VStr p =>
          let cmd := p in
          if isWindows E
          then throw (JsError "bash-match does not work on windows")
          else
            let cmd := if negb (mentions_echo cmd) then wrapped s p else cmd in
            try_catch
              (path <- getBashPath E ;;
               res <- spawn E path ["-c"; cmd] options ;;
               let err := toString (stderr res) in
               if nonempty err
               then handleError (JsString err) options
               else ret (negb (negb (nonempty (toString (stdout res))))))
              (fun e => handleError e options)
      | _ => throw (JsTypeError "expected a string")
      end
  | _ => throw (JsTypeError "expected a string")
  end.

(** [bash.isMatch] and [bash.match] of the earlier variant. *)
Definition isMatch (E : env) (fixture pattern options : value) : M bool :=
  bash E fixture pattern options.

Fixpoint match_loop (E : env) (elements : list value) (pattern options : value)
  (matches : list value) : M (list value) :=
  match elements with
  | [] => ret matches
  | fixture :: rest =>
      hit <- isMatch E fixture pattern options ;;
      match_loop E rest pattern options
        (if hit then matches ++ [fixture] else matches)
  end.

Definition bash_match (E : env) (list : subjects) (pattern options : value)
  : M (Datatypes.list value) :=
  let list := match list with
              | ArrayOf l => l
              | OneSubject v => [v]
              end in
  match_loop E list pattern options [].

End Legacy.

(** ** Sample data

    A POSIX environment whose shell answers three scripts, a Windows
    environment, and a few raw records; the examples below run the code on
    them. *)

Module Sample.

Definition answers (args : list string) : spawn_result :=
  let script_arg := last args "" in
  if (script_arg =? script "foo" "f*")%string
  then SpawnResult (Some ("true" ++ newline)%string) (Some "")
  else if (script_arg =? script "foo" "(")%string
  then SpawnResult (Some "") (Some ("bash: syntax error" ++ newline)%string)
  else SpawnResult (Some "") (Some "").

Definition posix : env :=
  Env "/home/user" false (fun path => (path =? "/bin/bash")%string)
      (fun _ args _ => Normal (answers args)).

Definition windows : env :=
  Env "C:/Users/user" true (fun _ => false)
      (fun _ args _ => Normal (answers args)).

(** A process whose heap holds the one record [o], at reference 0. *)
Definition holding (o : Obj.props) : state := State [o] None [].

Definition no_options : Obj.props := [].
Definition strict : Obj.props := [("strictErrors", VBool true)].
Definition null_then_dot : Obj.props :=
  [("nullglob", VBool true); ("dotglob", VBool true)].
Definition dot_alias : Obj.props := [("dot", VBool true); ("extglob", VBool false)].
Definition globstar_off : Obj.props := [("globstar", VBool false)].
Definition premarked : Obj.props := [("normalized", VBool true)].
Definition here : Obj.props := [("cwd", VStr "/tmp"); ("dotglob", VBool false)].
Definition dot_over_dotglob : Obj.props :=
  [("dotglob", VBool false); ("dot", VBool true)].
Definition marked_shadowing : Obj.props :=
  [("normalized", VBool true); ("hasOwnProperty", VBool true);
   ("strictErrors", VBool true)].

(** An environment in which launching the shell throws. *)
Definition broken : env :=
  Env "/home/user" false (fun _ => false)
      (fun _ _ _ => Abrupt (Foreign "spawnSync ENOENT")).

End Sample.

(** * Properties *)

(** ** Strings *)

Lemma prefix_iff (sub s : string) :
  prefix sub s = true <-> exists post, s = (sub ++ post)%string.
Proof.
  revert s; induction sub as [|a sub IH]; intros s.
  - destruct s; simpl; (split; [intros _; eexists; reflexivity | reflexivity]).
  - destruct s as [|b s]; simpl.
    + split; [discriminate | intros [post H]; discriminate].
    + destruct (ascii_dec a b) as [->|Hab].
      * rewrite IH; split; intros [post H]; exists post.
        -- now rewrite H.
        -- now inversion H.
      * split; [discriminate | intros [post H]; inversion H; congruence].
Qed.

Lemma indexOf_from_iff (s sub : string) (i : Z) :
  (0 <= i)%Z ->
  indexOf_from s sub i <> (-1)%Z
  <-> exists pre post, s = (pre ++ sub ++ post)%string.
Proof.
  revert i; induction s as [|c rest IH]; intros i Hi; cbn [indexOf_from].
  - destruct sub as [|a sub]; simpl.
    + split; [intros _; now exists "", "" | intros _; lia].
    + split; [congruence | intros (pre & post & H); destruct pre; discriminate].
  - destruct (prefix sub (String c rest)) eqn:P.
    + split; [intros _ | intros _; lia].
      apply prefix_iff in P; destruct P as [post P].
      exists "", post; exact P.
    + rewrite IH by lia; split; intros (pre & post & H).
      * exists (String c pre), post; simpl; now rewrite H.
      * destruct pre as [|c' pre]; simpl in H.
        -- assert (prefix sub (String c rest) = true)
             by (apply prefix_iff; now exists post).
           congruence.
        -- inversion H; now exists pre, post.
Qed.

(** [s.indexOf(sub) !== -1] says that [s] contains [sub]. *)
Lemma indexOf_contains (s sub : string) :
  (indexOf s sub =? -1)%Z = false
  <-> exists pre post, s = (pre ++ sub ++ post)%string.
Proof.
  unfold indexOf; rewrite Z.eqb_neq; apply indexOf_from_iff; lia.
Qed.

(** [isExtglob] holds of the patterns that contain a qualifying character
    immediately followed by an opening parenthesis. *)
Lemma isExtglob_iff (s : string) :
  isExtglob s = true
  <-> exists pre c post,
        extglob_prefix c = true /\ s = (pre ++ String c (String "(" post))%string.
Proof.
  induction s as [|c rest IH]; simpl.
  - split; [discriminate | intros (pre & c & post & _ & H)].
    destruct pre; discriminate.
  - assert (Shift : (exists pre c0 post, extglob_prefix c0 = true
                       /\ rest = (pre ++ String c0 (String "(" post))%string)
                    -> exists pre c0 post, extglob_prefix c0 = true
                       /\ String c rest = (pre ++ String c0 (String "(" post))%string).
    { intros (pre & c0 & post & Hc & ->).
      exists (String c pre), c0, post; split; [exact Hc | reflexivity]. }
    assert (Unshift : extglob_prefix c = false \/ (forall post, rest <> String "(" post) ->
                      (exists pre c0 post, extglob_prefix c0 = true
                         /\ String c rest = (pre ++ String c0 (String "(" post))%string)
                      -> exists pre c0 post, extglob_prefix c0 = true
                         /\ rest = (pre ++ String c0 (String "(" post))%string).
    { intros Hno (pre & c0 & post & Hc & H).
      destruct pre as [|c' pre]; simpl in H; inversion H; subst.
      - destruct Hno as [Hno | Hno]; [congruence | now elim (Hno post)].
      - now exists pre, c0, post. }
    destruct rest as [|d rest'].
    + rewrite IH; split; [exact Shift | apply Unshift].
      right; intros post; discriminate.
    + destruct (Ascii.eqb_spec d "("%char) as [->|Hd].
      * destruct (extglob_prefix c) eqn:Hc.
        -- split; [intros _ | reflexivity].
           exists "", c, rest'; split; [exact Hc | reflexivity].
        -- rewrite IH; split; [exact Shift | apply Unshift; now left].
      * assert (R : (match d with
                     | "("%char => if extglob_prefix c then true
                                   else isExtglob (String d rest')
                     | _ => isExtglob (String d rest')
                     end) = isExtglob (String d rest')).
        { destruct d as [[] [] [] [] [] [] [] []]; try reflexivity.
          now elim Hd. }
        rewrite R, IH; split; [exact Shift | apply Unshift].
        right; intros post H; inversion H; contradiction.
Qed.

(** ** Objects *)

Module ObjFacts.
Import Obj.

Lemma get_set (o : props) (k k' : string) (v : value) :
  get (set o k v) k' = if (k =? k')%string then v else get o k'.
Proof.
  induction o as [|[k0 v0] o IH]; simpl.
  - reflexivity.
  - destruct (String.eqb_spec k0 k) as [->|Hk]; simpl.
    + destruct (String.eqb_spec k k'); reflexivity.
    + destruct (String.eqb_spec k0 k') as [->|Hk'].
      * destruct (String.eqb_spec k k'); [congruence | reflexivity].
      * exact IH.
Qed.

Lemma has_set (o : props) (k k' : string) (v : value) :
  has (set o k v) k' = (k =? k')%string || has o k'.
Proof.
  induction o as [|[k0 v0] o IH]; simpl.
  - now destruct (k =? k')%string.
  - destruct (String.eqb_spec k0 k) as [->|Hk]; simpl.
    + destruct (String.eqb_spec k k'); reflexivity.
    + destruct (String.eqb_spec k0 k') as [->|Hk'].
      * now rewrite orb_true_r.
      * exact IH.
Qed.

Lemma has_In (o : props) (k : string) : has o k = true <-> In k (keys o).
Proof.
  induction o as [|[k0 v0] o IH]; simpl.
  - split; [discriminate | tauto].
  - destruct (String.eqb_spec k0 k) as [->|Hk].
    + split; auto.
    + rewrite IH; split; [auto | intros [H|H]; [contradiction | exact H]].
Qed.

Lemma In_insert_index (e x : N * string) (l : list (N * string)) :
  In x (insert_index e l) <-> x = e \/ In x l.
Proof.
  induction l as [|y l IH]; simpl.
  - split; intros [H|H]; auto.
  - destruct (fst e <=? fst y)%N; simpl; [|rewrite IH]; intuition auto.
Qed.

Lemma In_index_keys (ks : list string) (n : N) (k : string) :
  In (n, k) (index_keys ks) <-> In k ks /\ array_index k = Some n.
Proof.
  induction ks as [|k0 ks IH]; simpl.
  - tauto.
  - destruct (array_index k0) as [n0|] eqn:A.
    + rewrite In_insert_index, IH; split.
      * intros [H | [H1 H2]]; [inversion H; subst; auto | auto].
      * intros [[-> | H1] H2]; [left; congruence | auto].
    + rewrite IH; split.
      * intros [H1 H2]; auto.
      * intros [[-> | H1] H2]; [congruence | auto].
Qed.

(** [for-in] visits every own key, and own keys only. *)
Lemma In_for_in (o : props) (k : string) : In k (for_in o) <-> In k (keys o).
Proof.
  unfold for_in, is_array_index; rewrite in_app_iff, in_map_iff, filter_In; split.
  - intros [([n k'] & <- & H) | [H _]]; [|exact H].
    now apply In_index_keys in H.
  - intros H; destruct (array_index k) as [n|] eqn:A.
    + left; exists (n, k); split; [reflexivity | now apply In_index_keys].
    + right; auto.
Qed.

(** On keys that are not array indices, [for-in] follows insertion order. *)
Lemma filter_for_in (P : string -> bool) (o : props) :
  (forall k, P k = true -> is_array_index k = false) ->
  filter P (for_in o) = filter P (keys o).
Proof.
  intros HP; unfold for_in; rewrite filter_app.
  assert (Hidx : filter P (map snd (index_keys (keys o))) = []).
  { assert (G : forall l : list (N * string),
               (forall n k, In (n, k) l -> array_index k = Some n) ->
               filter P (map snd l) = []).
    { induction l as [|[n k] l IHl]; intros Hl; simpl; [reflexivity|].
      destruct (P k) eqn:Pk.
      - apply HP in Pk; unfold is_array_index in Pk.
        rewrite (Hl n k) in Pk by (now left); discriminate.
      - apply IHl; intros n' k' H; apply Hl; now right. }
    apply G; intros n k H; now apply In_index_keys in H. }
  rewrite Hidx; simpl; clear Hidx.
  induction (keys o) as [|k ks IH]; simpl; [reflexivity|].
  destruct (is_array_index k) eqn:I; simpl.
  - destruct (P k) eqn:Pk; [apply HP in Pk; congruence | exact IH].
  - destruct (P k); [f_equal|]; exact IH.
Qed.

Lemma get_fold (raw : props) (ks : list string) (a : props) (k : string) :
  get (fold_left (fun a key => set a key (get raw key)) ks a) k
  = if existsb (String.eqb k) ks then get raw k else get a k.
Proof.
  revert a; induction ks as [|k0 ks IH]; intros a; simpl; [reflexivity|].
  rewrite IH, get_set, (String.eqb_sym k k0).
  destruct (String.eqb_spec k0 k) as [->|]; simpl.
  - now destruct (existsb _ ks).
  - reflexivity.
Qed.

Lemma has_fold (raw : props) (ks : list string) (a : props) (k : string) :
  has (fold_left (fun a key => set a key (get raw key)) ks a) k
  = existsb (String.eqb k) ks || has a k.
Proof.
  revert a; induction ks as [|k0 ks IH]; intros a; simpl; [reflexivity|].
  rewrite IH, has_set, (String.eqb_sym k k0).
  destruct (k0 =? k)%string; simpl;
    [now rewrite orb_true_r | reflexivity].
Qed.

Lemma existsb_for_in (o : props) (k : string) :
  existsb (String.eqb k) (for_in o) = has o k.
Proof.
  apply eq_true_iff_eq; rewrite existsb_exists, has_In, <- In_for_in; split.
  - intros (x & Hx & E); apply String.eqb_eq in E; now subst.
  - intros H; exists k; split; [exact H | apply String.eqb_refl].
Qed.

End ObjFacts.

(** ** The heap *)

Lemma deref_last (h : heap) (a : Obj.props) : deref (h ++ [a]) (List.length h) = a.
Proof. unfold deref; now rewrite nth_middle. Qed.

Lemma deref_old (h : heap) (a : Obj.props) (r : ref) :
  r < List.length h -> deref (h ++ [a]) r = deref h r.
Proof. intros H; unfold deref; now rewrite app_nth1. Qed.

Lemma deref_beyond (h : heap) (r : ref) : List.length h <= r -> deref h r = [].
Proof. intros H; unfold deref; now rewrite nth_overflow. Qed.

Lemma update_last (h : heap) (a b : Obj.props) :
  update (h ++ [a]) (List.length h) b = h ++ [b].
Proof. induction h as [|x h IH]; simpl; [reflexivity | now rewrite IH]. Qed.

(** ** One step of the code on a heap whose last object is the one being
    built *)

Section Steps.

Variables (h : heap) (bp : option string) (sp : list (string * list string)).

Local Abbreviation building a := (State (h ++ [a]) bp sp).

Lemma Get_building (a : Obj.props) (k : string) :
  Get (VObj (List.length h)) k (building a) = (Normal (Obj.get a k), building a).
Proof. unfold Get; simpl; now rewrite deref_last. Qed.

Lemma Put_building (a : Obj.props) (k : string) (v : value) :
  Put (List.length h) k v (building a) = (Normal tt, building (Obj.set a k v)).
Proof. unfold Put; simpl; now rewrite deref_last, update_last. Qed.

Lemma when_building (b : bool) (a : Obj.props) (k : string) (v : value) :
  when b (Put (List.length h) k v) (building a)
  = (Normal tt, building (set_if b a k v)).
Proof. destruct b; simpl; [apply Put_building | reflexivity]. Qed.

Lemma call_building (a : Obj.props) (k : string) :
  call_hasOwnProperty (List.length h) k (building a)
  = if Obj.has a "hasOwnProperty"
    then (Abrupt (JsTypeError "hasOwnProperty is not a function"), building a)
    else (Normal (Obj.has a k), building a).
Proof. unfold call_hasOwnProperty; simpl; now rewrite deref_last. Qed.

(** Copying from an object that the steps do not touch. *)
Lemma assign_building (b : ref) (raw : Obj.props) (ks : list string) (a : Obj.props) :
  (forall x, deref (h ++ [x]) b = raw) ->
  assign (List.length h) b ks (building a)
  = (Normal tt,
     building (fold_left (fun a key => Obj.set a key (Obj.get raw key)) ks a)).
Proof.
  intros Hb; revert a; induction ks as [|k ks IH]; intros a; simpl.
  - reflexivity.
  - unfold bind at 1; unfold Get at 1; simpl.
    rewrite Hb; unfold bind at 1.
    rewrite Put_building; apply IH.
Qed.

(** [extend({cwd: cwd}, options)], whatever [options] is. *)
Lemma extend_building (cwd : string) (options : value) :
  extend (List.length h) options (building [("cwd", VStr cwd)])
  = (Normal (List.length h),
     building (merged cwd (content (State h bp sp) options))).
Proof.
  destruct options as [| | | | |b]; try reflexivity.
  unfold extend, bind, enumerate; simpl.
  destruct (lt_eq_lt_dec b (List.length h)) as [[Hlt | ->] | Hgt].
  - rewrite deref_old by exact Hlt.
    rewrite (assign_building b (deref h b)); [reflexivity|].
    intros x; now apply deref_old.
  - rewrite deref_last.
    rewrite (deref_beyond h (List.length h)) by lia.
    change (Obj.for_in [("cwd", VStr cwd)]) with ["cwd"]; simpl.
    unfold bind, Get; simpl; rewrite deref_last.
    now rewrite update_last.
  - assert (D : forall x, deref (h ++ [x]) b = []).
    { intros x; apply deref_beyond; rewrite length_app; simpl; lia. }
    rewrite D.
    rewrite (deref_beyond h b) by lia; reflexivity.
Qed.

End Steps.

(** ** The closed forms *)

Module Closed.
Import Obj ObjFacts.

Lemma has_set_if (b : bool) (o : props) (k k' : string) (v : value) :
  has (set_if b o k v) k' = (b && (k =? k')%string) || has o k'.
Proof. destruct b; simpl; [apply has_set | reflexivity]. Qed.

Lemma get_set_if (b : bool) (o : props) (k k' : string) (v : value) :
  get (set_if b o k v) k' = if b && (k =? k')%string then v else get o k'.
Proof. destruct b; simpl; [apply get_set | reflexivity]. Qed.

Lemma has_merged (cwd : string) (raw : props) (k : string) :
  has (merged cwd raw) k = has raw k || ("cwd" =? k)%string.
Proof.
  unfold merged; rewrite has_fold, existsb_for_in; cbn [has].
  now destruct ("cwd" =? k)%string.
Qed.

Lemma get_merged (cwd : string) (raw : props) (k : string) :
  get (merged cwd raw) k
  = if has raw k then get raw k
    else if ("cwd" =? k)%string then VStr cwd else VUndefined.
Proof. unfold merged; now rewrite get_fold, existsb_for_in. Qed.

Ltac obj_rewrite :=
  repeat first [ rewrite has_set_if | rewrite get_set_if
               | rewrite has_set | rewrite get_set
               | rewrite has_merged | rewrite get_merged ].

Lemma has_aliased_shadow (cwd : string) (raw : props) :
  has (aliased cwd raw) "hasOwnProperty" = has raw "hasOwnProperty".
Proof.
  unfold aliased; obj_rewrite; simpl.
  now rewrite !andb_false_r, orb_false_r.
Qed.

End Closed.

Section Normaliser.

Variable E : env.

(** The guard [options && options.key === true]. *)
Lemma flag_spec (options : value) (key : string) (st : state) :
  (if truthy options
   then v <- Get options key ;; ret (is_true v)
   else ret false) st
  = (Normal (is_true (Obj.get (content st options) key)), st).
Proof.
  destruct options as [| |[]|z|s|r]; try reflexivity.
  - simpl; destruct (z =? 0)%Z; reflexivity.
  - simpl; destruct s; reflexivity.
Qed.

Ltac step :=
  unfold bind at 1;
  first [ rewrite extend_building | rewrite Get_building
        | rewrite when_building | rewrite call_building
        | rewrite Put_building ];
  cbv beta iota.

(** [createOptions] in closed form: an early return, a shadowed
    [hasOwnProperty], or a fresh canonical record. *)
Lemma createOptions_spec (pattern : string) (options : value) (st : state) :
  createOptions E pattern options st
  = if marked st options then (Normal options, st)
    else
      let raw := content st options in
      if Obj.has raw "hasOwnProperty"
      then (Abrupt (JsTypeError "hasOwnProperty is not a function"),
            State (st_heap st ++ [aliased (process_cwd E) raw])
                  (bashPath st) (spawned st))
      else (Normal (VObj (List.length (st_heap st))),
            State (st_heap st ++ [canonical (process_cwd E) pattern raw])
                  (bashPath st) (spawned st)).
Proof.
  destruct st as [h bp sp]; unfold createOptions.
  unfold bind at 1; rewrite flag_spec; fold (marked (State h bp sp) options).
  destruct (marked (State h bp sp) options); [reflexivity|].
  unfold bind at 1, alloc at 1; cbv beta iota; simpl st_heap; simpl bashPath;
    simpl spawned.
  do 7 step.
  lazymatch goal with
  | |- ?L = _ =>
      match L with
      | context [State (h ++ [?a]) bp sp] =>
          change a with (aliased (process_cwd E) (content (State h bp sp) options))
      end
  end.
  cbv zeta; set (raw := content (State h bp sp) options).
  step; rewrite Closed.has_aliased_shadow.
  destruct (Obj.has raw "hasOwnProperty") eqn:Sh; [reflexivity|].
  do 2 step.
  rewrite Closed.has_set_if, Closed.has_aliased_shadow, Sh.
  replace (String.eqb "globstar" "hasOwnProperty") with false by reflexivity.
  rewrite andb_false_r; cbv beta iota; simpl orb; cbv beta iota.
  do 2 step; reflexivity.
Qed.

End Normaliser.

(** ** The canonical record *)

Module Canonical.
Import Obj ObjFacts Closed.

Lemma get_absent (o : props) (k : string) : has o k = false -> get o k = VUndefined.
Proof.
  induction o as [|[k0 v0] o IH]; simpl; [reflexivity|].
  destruct (k0 =? k)%string; [discriminate | exact IH].
Qed.

Lemma get_true_has (o : props) (k : string) :
  get o k = VBool true -> has o k = true.
Proof.
  intros H; destruct (has o k) eqn:X; [reflexivity|].
  rewrite get_absent in H by exact X; discriminate.
Qed.

Lemma normalized_set (cwd pattern : string) (raw : props) :
  get (canonical cwd pattern raw) "normalized" = VBool true.
Proof. unfold canonical; now rewrite get_set. Qed.

(** Nothing of the raw record is dropped. *)
Lemma keeps_raw_keys (cwd pattern : string) (raw : props) (k : string) :
  has raw k = true -> has (canonical cwd pattern raw) k = true.
Proof.
  intros H; unfold canonical, aliased; obj_rewrite; rewrite H.
  now rewrite !orb_true_r.
Qed.

Ltac split_orb H :=
  repeat (apply orb_true_iff in H; destruct H as [H | H]);
  try (apply andb_true_iff in H; destruct H as [_ H]);
  try (apply String.eqb_eq in H; subst).

(** Only [cwd], [normalized] and shell toggles are ever added. *)
Lemma added_keys (cwd pattern : string) (raw : props) (k : string) :
  has (canonical cwd pattern raw) k = true ->
  has raw k = true \/ In k ("cwd" :: "normalized" :: valid).
Proof.
  unfold canonical, aliased; obj_rewrite; intros H.
  split_orb H; try (right; simpl; tauto); now left.
Qed.

Ltac by_cases :=
  repeat match goal with
         | |- context [if ?c then _ else _] => destruct c eqn:?
         end.

(** A toggle is [true] or has the value of the raw record. *)
Lemma toggle_values (cwd pattern : string) (raw : props) (k : string) :
  In k valid ->
  get (canonical cwd pattern raw) k = VBool true
  \/ get (canonical cwd pattern raw) k = get raw k.
Proof.
  intros Hk; unfold valid in Hk; simpl in Hk.
  assert (U : forall k', has raw k' = false -> VUndefined = get raw k')
    by (intros k' H; now rewrite get_absent).
  decompose [or] Hk; subst; try contradiction;
    unfold canonical, aliased; obj_rewrite;
    repeat match goal with
           | |- context [String.eqb ?a ?b] =>
               let r := eval vm_compute in (String.eqb a b) in
               change (String.eqb a b) with r
           end;
    rewrite ?andb_false_r, ?andb_true_r; cbv beta iota;
    by_cases; auto.
Qed.

(** The two pattern-implied toggles. *)
Lemma globstar_value (cwd pattern : string) (raw : props) :
  get raw "globstar" = VBool true
  \/ (has raw "globstar" = false /\ (indexOf pattern "**" =? -1)%Z = false) ->
  get (canonical cwd pattern raw) "globstar" = VBool true.
Proof.
  intros H; unfold canonical, aliased; obj_rewrite;
    repeat match goal with
           | |- context [String.eqb ?a ?b] =>
               let r := eval vm_compute in (String.eqb a b) in
               change (String.eqb a b) with r
           end;
    rewrite ?andb_false_r, ?andb_true_r, ?orb_false_r; cbv beta iota.
  destruct H as [H | [H1 H2]].
  - rewrite (get_true_has _ _ H), H; by_cases; reflexivity.
  - now rewrite H1, H2.
Qed.

Lemma extglob_value (cwd pattern : string) (raw : props) :
  get raw "extglob" = VBool true
  \/ (has raw "extglob" = false /\ isExtglob pattern = true) ->
  get (canonical cwd pattern raw) "extglob" = VBool true.
Proof.
  intros H; unfold canonical, aliased; obj_rewrite;
    repeat match goal with
           | |- context [String.eqb ?a ?b] =>
               let r := eval vm_compute in (String.eqb a b) in
               change (String.eqb a b) with r
           end;
    rewrite ?andb_false_r, ?andb_true_r, ?orb_false_r; cbv beta iota.
  destruct H as [H | [H1 H2]].
  - rewrite (get_true_has _ _ H), H; by_cases; reflexivity.
  - now rewrite H1, H2.
Qed.

End Canonical.

(** ** The option normaliser *)

Lemma is_true_eq (v : value) : is_true v = true -> v = VBool true.
Proof. destruct v as [| |[]| | |]; simpl; congruence. Qed.

Section NormaliserClaims.

Variable E : env.

(** C3, amended. Unless the raw record shadows [hasOwnProperty],
    [createOptions] returns a record with [normalized = true] that keeps
    every key of the raw record (the aliases [dot], [nocase], [nonull] and
    unrecognised keys included), adds nothing but [cwd], [normalized] and
    shell toggles, and in which each shell toggle is [true] or has the value
    the raw record gave it. *)
Theorem createOptions_record_shape (pattern : string) (options : value) (st : state) :
  Obj.has (content st options) "hasOwnProperty" = false ->
  exists r st',
    createOptions E pattern options st = (Normal (VObj r), st')
    /\ Obj.get (deref (st_heap st') r) "normalized" = VBool true
    /\ (forall k, Obj.has (content st options) k = true ->
                  Obj.has (deref (st_heap st') r) k = true)
    /\ (forall k, Obj.has (deref (st_heap st') r) k = true ->
                  Obj.has (content st options) k = true
                  \/ In k ("cwd" :: "normalized" :: valid))
    /\ (forall k, In k valid ->
                  Obj.get (deref (st_heap st') r) k = VBool true
                  \/ Obj.get (deref (st_heap st') r) k
                     = Obj.get (content st options) k).
Proof.
  intros Sh; rewrite createOptions_spec.
  destruct (marked st options) eqn:Mk.
  - destruct options as [| | | | |r]; try discriminate Mk.
    exists r, st; simpl in *; repeat split; auto.
    now apply is_true_eq.
  - cbv zeta; rewrite Sh.
    eexists; eexists; split; [reflexivity|]; simpl st_heap; rewrite deref_last.
    split; [apply Canonical.normalized_set|].
    split; [intros k; apply Canonical.keeps_raw_keys|].
    split; [intros k; apply Canonical.added_keys|].
    intros k; apply Canonical.toggle_values.
Qed.

(** C4, amended. In the record [createOptions] returns, [globstar] is
    [true] whenever the raw record has [globstar === true], or the raw
    record is not marked [normalized], has no [globstar] key of its own and
    the pattern contains two stars in a row; [extglob] is [true] whenever the
    raw record has [extglob === true], or the raw record is not marked
    [normalized], has no [extglob] key of its own and the pattern contains
    one of the five qualifying characters followed by a parenthesis. *)
Theorem createOptions_implied_toggles (pattern : string) (options : value) (st : state) :
  Obj.has (content st options) "hasOwnProperty" = false ->
  exists r st',
    createOptions E pattern options st = (Normal (VObj r), st')
    /\ (Obj.get (content st options) "globstar" = VBool true
        \/ (marked st options = false
            /\ Obj.has (content st options) "globstar" = false
            /\ exists pre post, pattern = (pre ++ "**" ++ post)%string) ->
        Obj.get (deref (st_heap st') r) "globstar" = VBool true)
    /\ (Obj.get (content st options) "extglob" = VBool true
        \/ (marked st options = false
            /\ Obj.has (content st options) "extglob" = false
            /\ exists pre c post,
                 extglob_prefix c = true
                 /\ pattern = (pre ++ String c (String "(" post))%string) ->
        Obj.get (deref (st_heap st') r) "extglob" = VBool true).
Proof.
  intros Sh; rewrite createOptions_spec.
  destruct (marked st options) eqn:Mk.
  - destruct options as [| | | | |r]; try discriminate Mk.
    exists r, st; simpl; repeat split;
      (intros [H | [H _]]; [exact H | discriminate H]).
  - cbv zeta; rewrite Sh.
    eexists; eexists; split; [reflexivity|]; simpl st_heap; rewrite deref_last.
    split; intros [H | (_ & H1 & H2)].
    + apply Canonical.globstar_value; now left.
    + apply Canonical.globstar_value; right; split; [exact H1|].
      now apply indexOf_contains.
    + apply Canonical.extglob_value; now left.
    + apply Canonical.extglob_value; right; split; [exact H1|].
      now apply isExtglob_iff.
Qed.

(** C5. Normalising the result of a normalisation gives that result again,
    and changes nothing: [createOptions(p, createOptions(p, o))] completes as
    [createOptions(p, o)] does, in the same state. In particular a record
    marked [normalized === true] is returned as it is, the very same
    object. *)
Theorem createOptions_idempotent (pattern : string) (options : value) (st : state) :
  bind (createOptions E pattern options) (createOptions E pattern) st
  = createOptions E pattern options st
  /\ (marked st options = true ->
      createOptions E pattern options st = (Normal options, st)).
Proof.
  split.
  - unfold bind; rewrite (createOptions_spec E pattern options st).
    destruct (marked st options) eqn:Mk.
    + now rewrite createOptions_spec, Mk.
    + cbv zeta; destruct (Obj.has (content st options) "hasOwnProperty");
        [reflexivity|].
      rewrite createOptions_spec; unfold marked; simpl content.
      now rewrite deref_last, Canonical.normalized_set.
  - intros Mk; now rewrite createOptions_spec, Mk.
Qed.

(** C9. On a live raw record that is not marked [normalized === true],
    [createOptions] writes to a record of its own: the raw record, and every
    other object of the heap, is afterwards what it was before, whether the
    call returns or throws; the record returned is a new one; and the call
    does return unless the raw record shadows [hasOwnProperty]. *)
Theorem createOptions_leaves_raw (pattern : string) (r : ref) (st : state) :
  r < List.length (st_heap st) ->
  marked st (VObj r) = false ->
  let result := createOptions E pattern (VObj r) st in
  content (snd result) (VObj r) = content st (VObj r)
  /\ (forall r', r' < List.length (st_heap st) ->
                 deref (st_heap (snd result)) r' = deref (st_heap st) r')
  /\ (forall v, fst result = Normal v ->
                v = VObj (List.length (st_heap st)) /\ v <> VObj r)
  /\ (Obj.has (content st (VObj r)) "hasOwnProperty" = false ->
      fst result = Normal (VObj (List.length (st_heap st)))).
Proof.
  intros Hr Mk result; subst result; rewrite createOptions_spec, Mk; cbv zeta.
  destruct (Obj.has (content st (VObj r)) "hasOwnProperty"); simpl;
    (split; [now apply deref_old|]);
    (split; [intros r' Hr'; now apply deref_old|]);
    (split; [intros v Hv | intros Hs]); try discriminate; try reflexivity.
  inversion Hv; split; [reflexivity|].
  intros Heq; inversion Heq; lia.
Qed.

End NormaliserClaims.

Lemma createOptions_record_shape_witness :
  Obj.has (content (Sample.holding Sample.dot_alias) (VObj 0)) "hasOwnProperty" = false
  /\ exists r st',
       createOptions Sample.posix "a**" (VObj 0) (Sample.holding Sample.dot_alias)
       = (Normal (VObj r), st')
       /\ Obj.get (deref (st_heap st') r) "normalized" = VBool true
       /\ (forall k, Obj.has (content (Sample.holding Sample.dot_alias) (VObj 0)) k = true ->
                     Obj.has (deref (st_heap st') r) k = true)
       /\ (forall k, Obj.has (deref (st_heap st') r) k = true ->
                     Obj.has (content (Sample.holding Sample.dot_alias) (VObj 0)) k = true
                     \/ In k ("cwd" :: "normalized" :: valid))
       /\ (forall k, In k valid ->
                     Obj.get (deref (st_heap st') r) k = VBool true
                     \/ Obj.get (deref (st_heap st') r) k
                        = Obj.get (content (Sample.holding Sample.dot_alias) (VObj 0)) k).
Proof.
  split; [reflexivity|].
  apply (createOptions_record_shape Sample.posix "a**" (VObj 0)
           (Sample.holding Sample.dot_alias)).
  reflexivity.
Defined.

(** C3 as stated fails: the record returned for [{dot: true, extglob:
    false}] still has the alias key [dot], and its toggle [extglob] is
    present without being [true]. *)
Lemma createOptions_keeps_alias_keys :
  exists r st',
    createOptions Sample.posix "*.js" (VObj 0) (Sample.holding Sample.dot_alias)
    = (Normal (VObj r), st')
    /\ Obj.has (deref (st_heap st') r) "dot" = true
    /\ Obj.get (deref (st_heap st') r) "extglob" = VBool false.
Proof. eexists; eexists; split; [reflexivity | split; reflexivity]. Qed.

Lemma createOptions_implied_toggles_witness :
  Obj.has (content (Sample.holding Sample.dot_alias) (VObj 0)) "hasOwnProperty" = false
  /\ exists r st',
       createOptions Sample.posix "a/**/b" (VObj 0) (Sample.holding Sample.dot_alias)
       = (Normal (VObj r), st')
       /\ (Obj.get (content (Sample.holding Sample.dot_alias) (VObj 0)) "globstar" = VBool true
           \/ (marked (Sample.holding Sample.dot_alias) (VObj 0) = false
               /\ Obj.has (content (Sample.holding Sample.dot_alias) (VObj 0)) "globstar" = false
               /\ exists pre post, "a/**/b" = (pre ++ "**" ++ post)%string) ->
           Obj.get (deref (st_heap st') r) "globstar" = VBool true)
       /\ (Obj.get (content (Sample.holding Sample.dot_alias) (VObj 0)) "extglob" = VBool true
           \/ (marked (Sample.holding Sample.dot_alias) (VObj 0) = false
               /\ Obj.has (content (Sample.holding Sample.dot_alias) (VObj 0)) "extglob" = false
               /\ exists pre c post,
                    extglob_prefix c = true
                    /\ "a/**/b" = (pre ++ String c (String "(" post))%string) ->
           Obj.get (deref (st_heap st') r) "extglob" = VBool true).
Proof.
  split; [reflexivity|].
  apply (createOptions_implied_toggles Sample.posix "a/**/b" (VObj 0)
           (Sample.holding Sample.dot_alias)).
  reflexivity.
Defined.

(** C4 as stated fails twice over: [{globstar: false}] keeps [globstar]
    false although the pattern contains two stars in a row, and a record
    marked [normalized] gets no [globstar] at all. *)
Lemma createOptions_respects_explicit_globstar :
  (exists pre post, "**" = (pre ++ "**" ++ post)%string)
  /\ (exists r st',
        createOptions Sample.posix "**" (VObj 0) (Sample.holding Sample.globstar_off)
        = (Normal (VObj r), st')
        /\ Obj.get (deref (st_heap st') r) "globstar" = VBool false)
  /\ (exists r st',
        createOptions Sample.posix "**" (VObj 0) (Sample.holding Sample.premarked)
        = (Normal (VObj r), st')
        /\ Obj.has (deref (st_heap st') r) "globstar" = false).
Proof.
  split; [now exists "", ""|].
  split; eexists; eexists; split; reflexivity.
Qed.

Lemma createOptions_idempotent_witness :
  marked (Sample.holding Sample.premarked) (VObj 0) = true
  /\ createOptions Sample.posix "**" (VObj 0) (Sample.holding Sample.premarked)
     = (Normal (VObj 0), Sample.holding Sample.premarked).
Proof.
  split; [reflexivity|].
  apply (createOptions_idempotent Sample.posix "**" (VObj 0)
           (Sample.holding Sample.premarked)).
  reflexivity.
Defined.

Lemma createOptions_leaves_raw_witness :
  0 < List.length (st_heap (Sample.holding Sample.dot_alias))
  /\ marked (Sample.holding Sample.dot_alias) (VObj 0) = false
  /\ content (snd (createOptions Sample.posix "*" (VObj 0)
                     (Sample.holding Sample.dot_alias))) (VObj 0)
     = Sample.dot_alias.
Proof.
  split; [simpl; lia|]; split; [reflexivity|].
  refine (proj1 (createOptions_leaves_raw Sample.posix "*" 0
                   (Sample.holding Sample.dot_alias) _ _));
    [simpl; lia | reflexivity].
Defined.

(** ** The command compiler *)

Lemma array_indexOf_from_In (l : list string) (x : string) (i : Z) :
  (0 <= i)%Z -> (array_indexOf_from l x i =? -1)%Z = false <-> In x l.
Proof.
  revert i; induction l as [|y l IH]; intros i Hi; simpl.
  - split; [discriminate | tauto].
  - destruct (String.eqb_spec y x) as [->|Hy].
    + split; [auto | intros _; apply Z.eqb_neq; lia].
    + rewrite IH by lia; split; [auto | intros [H|H]; [contradiction | exact H]].
Qed.

Lemma is_valid_In (k : string) : is_valid k = true <-> In k valid.
Proof.
  unfold is_valid, array_indexOf; rewrite negb_true_iff.
  apply array_indexOf_from_In; lia.
Qed.

Lemma valid_not_index (k : string) : is_valid k = true -> is_array_index k = false.
Proof.
  rewrite is_valid_In; unfold valid; simpl; intros H.
  decompose [or] H; subst; try contradiction; reflexivity.
Qed.

Section Flags.

Variable P : string -> bool.

Let pushed (k : string) : list string := if P k then ["-O"; k] else [].

Lemma flags_filter (ks : list string) :
  flat_map pushed ks = flat_map (fun k => ["-O"; k]) (filter P ks).
Proof.
  induction ks as [|k ks IH]; simpl; [reflexivity|].
  unfold pushed at 1; destruct (P k); simpl; now rewrite IH.
Qed.

Lemma option_names_flags (ks tail : list string) :
  option_names (flat_map (fun k => ["-O"; k]) ks ++ tail)
  = ks ++ option_names tail.
Proof. induction ks as [|k ks IH]; simpl; [reflexivity | now rewrite IH]. Qed.

Lemma flags_split (ks : list string) (k : string) :
  In k ks ->
  exists pre post,
    flat_map (fun k => ["-O"; k]) ks = pre ++ "-O" :: k :: post.
Proof.
  intros H; apply in_split in H; destruct H as (l1 & l2 & ->).
  rewrite flat_map_app; simpl; eauto.
Qed.

End Flags.

Section Compiler.

Import Obj ObjFacts.

Lemma cmd_loop_spec (r : ref) (ks acc : list string) (st : state) :
  has (deref (st_heap st) r) "hasOwnProperty" = false ->
  cmd_loop r ks acc st
  = (Normal (acc ++ flat_map
               (fun k => if has (deref (st_heap st) r) k && is_valid k
                         then ["-O"; k] else []) ks),
     st).
Proof.
  intros Sh; revert acc; induction ks as [|k ks IH]; intros acc; simpl.
  - now rewrite app_nil_r.
  - unfold bind, call_hasOwnProperty; rewrite Sh, IH; fold (is_valid k).
    destruct (has (deref (st_heap st) r) k && is_valid k);
      [now rewrite <- app_assoc | reflexivity].
Qed.

Lemma cmd_loop_shadowed (r : ref) (k : string) (ks acc : list string) (st : state) :
  has (deref (st_heap st) r) "hasOwnProperty" = true ->
  cmd_loop r (k :: ks) acc st
  = (Abrupt (JsTypeError "hasOwnProperty is not a function"), st).
Proof. intros Sh; simpl; unfold bind, call_hasOwnProperty; now rewrite Sh. Qed.

(** [cmd] in closed form. *)
Lemma cmd_spec (str pattern : string) (options : value) (st : state) :
  cmd str pattern options st
  = (if has (content st options) "hasOwnProperty"
     then Abrupt (JsTypeError "hasOwnProperty is not a function")
     else Normal (toggle_args (content st options) ++ ["-c"; script str pattern]),
     st).
Proof.
  unfold cmd; destruct options as [| | | | |r]; try reflexivity.
  simpl content; unfold bind at 1, bind at 1, enumerate; cbv beta iota.
  destruct (has (deref (st_heap st) r) "hasOwnProperty") eqn:Sh.
  - destruct (for_in (deref (st_heap st) r)) as [|k ks] eqn:F.
    + apply has_In, In_for_in in Sh; rewrite F in Sh; contradiction.
    + now rewrite cmd_loop_shadowed.
  - now rewrite cmd_loop_spec.
Qed.

(** The pushed names are the toggle keys of the record, in insertion
    order. *)
Lemma toggle_args_keys (o : props) :
  toggle_args o = flat_map (fun k => ["-O"; k]) (filter is_valid (keys o)).
Proof.
  unfold toggle_args; rewrite flags_filter; f_equal.
  rewrite <- (filter_for_in is_valid o valid_not_index).
  apply filter_ext_in; intros k Hk.
  apply In_for_in, has_In in Hk; now rewrite Hk.
Qed.

End Compiler.

(** C2, amended. For a record that does not shadow [hasOwnProperty],
    [cmd] returns an argument list in which every shell toggle that is
    present and truthy in the record has its pair [-O], name; the pairs of
    those toggles come in the order in which the record enumerates its keys
    (insertion order), not in the order of the table. *)
Theorem cmd_toggle_pairs (str pattern : string) (r : ref) (st : state) :
  Obj.has (deref (st_heap st) r) "hasOwnProperty" = false ->
  exists args,
    cmd str pattern (VObj r) st = (Normal args, st)
    /\ (forall k, In k valid -> enabled (deref (st_heap st) r) k = true ->
                  exists pre post, args = pre ++ "-O" :: k :: post)
    /\ filter (enabled (deref (st_heap st) r)) (option_names args)
       = filter (fun k => is_valid k && enabled (deref (st_heap st) r) k)
                (Obj.keys (deref (st_heap st) r)).
Proof.
  intros Sh; rewrite cmd_spec; simpl content; rewrite Sh, toggle_args_keys.
  set (o := deref (st_heap st) r).
  eexists; split; [reflexivity|]; split.
  - intros k Hk En.
    assert (Hin : In k (filter is_valid (Obj.keys o))).
    { apply filter_In; split; [|now apply is_valid_In].
      apply ObjFacts.has_In; unfold enabled in En.
      now apply andb_true_iff in En. }
    destruct (flags_split _ k Hin) as (pre & post & Eq).
    exists pre, (post ++ ["-c"; script str pattern]).
    now rewrite Eq, <- app_assoc.
  - rewrite option_names_flags; simpl option_names.
    rewrite app_nil_r; clear.
    induction (Obj.keys o) as [|k ks IH]; simpl; [reflexivity|].
    destruct (is_valid k); simpl; [|exact IH].
    destruct (enabled o k); [f_equal|]; exact IH.
Qed.

Lemma cmd_toggle_pairs_witness :
  Obj.has (deref (st_heap (Sample.holding Sample.null_then_dot)) 0) "hasOwnProperty" = false
  /\ exists args,
       cmd "foo" "f*" (VObj 0) (Sample.holding Sample.null_then_dot)
       = (Normal args, Sample.holding Sample.null_then_dot)
       /\ (forall k, In k valid ->
                     enabled (deref (st_heap (Sample.holding Sample.null_then_dot)) 0) k = true ->
                     exists pre post, args = pre ++ "-O" :: k :: post)
       /\ filter (enabled (deref (st_heap (Sample.holding Sample.null_then_dot)) 0))
                 (option_names args)
          = filter (fun k => is_valid k
                             && enabled (deref (st_heap (Sample.holding Sample.null_then_dot)) 0) k)
                   (Obj.keys (deref (st_heap (Sample.holding Sample.null_then_dot)) 0)).
Proof.
  split; [reflexivity|].
  apply (cmd_toggle_pairs "foo" "f*" 0 (Sample.holding Sample.null_then_dot)).
  reflexivity.
Defined.

(** C2 as stated fails on the order: the canonical record made from
    [{nullglob: true, dotglob: true}] compiles to [-O nullglob -O dotglob],
    while the table puts [dotglob] before [nullglob]. *)
Lemma cmd_follows_insertion_order :
  exists opts st1,
    createOptions Sample.posix "f*" (VObj 0) (Sample.holding Sample.null_then_dot)
    = (Normal opts, st1)
    /\ fst (cmd "foo" "f*" opts st1)
       = Normal ["-O"; "nullglob"; "-O"; "dotglob"; "-c"; script "foo" "f*"]
    /\ filter (enabled (content st1 opts)) valid = ["dotglob"; "nullglob"]
    /\ forall args, fst (cmd "foo" "f*" opts st1) = Normal args ->
                    filter (enabled (content st1 opts)) (option_names args)
                    <> filter (enabled (content st1 opts)) valid.
Proof.
  eexists; eexists; split; [reflexivity|].
  split; [reflexivity|]; split; [reflexivity|].
  intros args H; vm_compute in H; inversion H; subst; vm_compute; discriminate.
Qed.

(** A toggle that is present with a falsy value is compiled too: the loop
    of [cmd] tests the key, never the value. *)
Example cmd_pushes_present_falsy_toggle :
  fst (cmd "foo" "f*" (VObj 0) (Sample.holding Sample.dot_alias))
  = Normal ["-O"; "extglob"; "-c"; script "foo" "f*"].
Proof. reflexivity. Qed.

(** C7. For a record that does not shadow [hasOwnProperty], the argument
    list [cmd] returns is a run of [-O], toggle pairs followed by exactly
    [-c] and one script; the script is the literal of the source with the
    subject and the pattern spliced in as they are. *)
Theorem cmd_ends_with_script (str pattern : string) (options : value) (st : state) :
  Obj.has (content st options) "hasOwnProperty" = false ->
  exists toggles,
    cmd str pattern options st
    = (Normal (flat_map (fun k => ["-O"; k]) toggles
               ++ ["-c"; script str pattern]), st)
    /\ (forall k, In k toggles -> In k valid)
    /\ script str pattern
       = ("IFS=$" ++ dquote ++ newline ++ dquote ++ "; if [[ " ++ dquote
          ++ str ++ dquote ++ " = " ++ pattern
          ++ " ]]; then echo true; fi")%string.
Proof.
  intros Sh; rewrite cmd_spec, Sh, toggle_args_keys.
  eexists; split; [reflexivity|]; split; [|reflexivity].
  intros k Hk; apply filter_In in Hk; now apply is_valid_In.
Qed.

Lemma cmd_ends_with_script_witness :
  Obj.has (content (Sample.holding Sample.null_then_dot) (VObj 0)) "hasOwnProperty" = false
  /\ exists toggles,
       cmd "$(id)" "*" (VObj 0) (Sample.holding Sample.null_then_dot)
       = (Normal (flat_map (fun k => ["-O"; k]) toggles
                  ++ ["-c"; script "$(id)" "*"]),
          Sample.holding Sample.null_then_dot)
       /\ (forall k, In k toggles -> In k valid)
       /\ script "$(id)" "*"
          = ("IFS=$" ++ dquote ++ newline ++ dquote ++ "; if [[ " ++ dquote
             ++ "$(id)" ++ dquote ++ " = " ++ "*"
             ++ " ]]; then echo true; fi")%string.
Proof.
  split; [reflexivity|].
  apply (cmd_ends_with_script "$(id)" "*" (VObj 0)
           (Sample.holding Sample.null_then_dot)).
  reflexivity.
Defined.

(** ** The primary call *)

Lemma handleError_spec (err : thrown) (options : value) (st : state) :
  handleError err options st = (handled err (content st options), st).
Proof.
  unfold handleError, handled; unfold bind at 1; rewrite flag_spec.
  now destruct (is_true (Obj.get (content st options) "strictErrors")).
Qed.

Lemma probed_nonempty (E : env) : nonempty (probed E) = true.
Proof.
  unfold probed; destruct (exists_sync E "/usr/local/bin/bash");
    [reflexivity | destruct (exists_sync E "/bin/bash"); reflexivity].
Qed.

Lemma effective_path_nonempty (E : env) (st : state) :
  nonempty (effective_path E st) = true.
Proof.
  unfold effective_path; destruct (bashPath st) as [p|];
    [destruct (nonempty p) eqn:N; [exact N|] |]; apply probed_nonempty.
Qed.

Lemma getBashPath_spec (E : env) (st : state) :
  getBashPath E st
  = (Normal (effective_path E st),
     State (st_heap st) (Some (effective_path E st)) (spawned st)).
Proof.
  unfold effective_path, getBashPath; fold (probed E).
  destruct st as [h [p|] sp]; simpl; [|reflexivity].
  now destruct (nonempty p).
Qed.

(** Once asked, the path is cached for good. *)
Lemma effective_path_cached (E : env) (st : state) (h : heap)
  (log : list (string * list string)) :
  effective_path E (State h (Some (effective_path E st)) log)
  = effective_path E st.
Proof.
  unfold effective_path at 1; simpl; now rewrite effective_path_nonempty.
Qed.

Lemma content_state (st : state) (bp : option string)
  (sp : list (string * list string)) (v : value) :
  content (State (st_heap st) bp sp) v = content st v.
Proof. reflexivity. Qed.

Section Primary.

Variable E : env.

(** The [try] statement of [bash] in closed form. *)
Lemma try_spec (s p : string) (opts : value) (st : state) :
  exists log,
    try_catch
      (path <- getBashPath E ;;
       args <- cmd s p opts ;;
       res <- spawn E path args opts ;;
       if nonempty (toString (stderr res))
       then handleError (JsString (toString (stderr res))) opts
       else ret (negb (negb (nonempty (toString (stdout res))))))
      (fun e => handleError e opts) st
    = (outcome E (effective_path E st) s p (content st opts),
       State (st_heap st) (Some (effective_path E st)) log).
Proof.
  unfold try_catch, bind at 1.
  rewrite (getBashPath_spec E st); cbv beta iota.
  unfold bind at 1; rewrite cmd_spec, content_state; unfold outcome.
  destruct (Obj.has (content st opts) "hasOwnProperty").
  - rewrite handleError_spec, content_state; eexists; reflexivity.
  - unfold bind, spawn; simpl st_heap; simpl bashPath; simpl spawned.
    rewrite content_state.
    destruct (spawn_sync E (effective_path E st) _ (content st opts)) as [res|e].
    + destruct (nonempty (toString (stderr res))).
      * rewrite handleError_spec, content_state; unfold handled.
        destruct (is_true (Obj.get (content st opts) "strictErrors")) eqn:St.
        -- rewrite handleError_spec, content_state; unfold handled.
           rewrite St; eexists; reflexivity.
        -- eexists; reflexivity.
      * unfold ret; rewrite negb_involutive; eexists; reflexivity.
    + rewrite handleError_spec, content_state; eexists; reflexivity.
Qed.

(** [bash] on strings, on a POSIX platform, in closed form; the shell path
    stays what it is and the heap only grows. *)
Lemma bash_run (s p : string) (options : value) (st : state) :
  isWindows E = false ->
  exists st',
    bash E (VStr s) (VStr p) options st
    = (verdict E (effective_path E st) s p (content st options), st')
    /\ effective_path E st' = effective_path E st
    /\ exists extra, st_heap st' = st_heap st ++ extra.
Proof.
  intros Hw; unfold bash, verdict; rewrite Hw, createOptions_spec.
  fold (marked st options); destruct (marked st options) eqn:Mk;
    cbv beta iota zeta.
  - destruct (try_spec s p options st) as [log ->].
    eexists; split; [reflexivity|]; split; [apply effective_path_cached|].
    exists []; simpl; now rewrite app_nil_r.
  - destruct (Obj.has (content st options) "hasOwnProperty").
    + rewrite handleError_spec.
      eexists; split; [reflexivity|]; split; [reflexivity|].
      simpl; eauto.
    + set (st1 := State _ _ _).
      assert (P1 : effective_path E st1 = effective_path E st) by reflexivity.
      destruct (try_spec s p (VObj (List.length (st_heap st))) st1)
        as [log ->].
      eexists; split;
        [simpl content; rewrite deref_last, P1; reflexivity|].
      split; [rewrite effective_path_cached; exact P1 | simpl; eauto].
Qed.

Lemma grown_heap (st st' : state) (options : value) (extra : heap) :
  st_heap st' = st_heap st ++ extra ->
  live st options ->
  live st' options /\ content st' options = content st options.
Proof.
  intros Eq Lv; destruct options as [| | | | |r]; simpl in *; try tauto.
  rewrite Eq, length_app; split; [lia|].
  unfold deref; now rewrite app_nth1.
Qed.

Lemma bash_spec (s p : string) (options : value) (st : state) :
  isWindows E = false ->
  fst (bash E (VStr s) (VStr p) options st)
  = verdict E (effective_path E st) s p (content st options).
Proof.
  intros Hw; destruct (bash_run s p options st Hw) as (st' & -> & _).
  reflexivity.
Qed.

(** [bash] leaves the shell path and the caller's record as they were. *)
Lemma bash_preserves (str pattern options : value) (st : state) :
  live st options ->
  effective_path E (snd (bash E str pattern options st)) = effective_path E st
  /\ live (snd (bash E str pattern options st)) options
  /\ content (snd (bash E str pattern options st)) options = content st options.
Proof.
  intros Lv.
  destruct str as [| | | |s|]; try (simpl; now auto).
  destruct pattern as [| | | |p|]; try (simpl; now auto).
  destruct (isWindows E) eqn:Hw.
  - unfold bash; rewrite Hw; simpl; auto.
  - destruct (bash_run s p options st Hw) as (st' & -> & P' & extra & Eq).
    split; [exact P'|]; simpl snd; now apply (grown_heap st st' options extra).
Qed.

(** The result of [bash] depends on the state through the shell path and
    the caller's record only. *)
Lemma bash_stable (str pattern options : value) (st st' : state) :
  effective_path E st = effective_path E st' ->
  content st options = content st' options ->
  fst (bash E str pattern options st) = fst (bash E str pattern options st').
Proof.
  intros Pa Eq.
  destruct str as [| | | |s|]; try reflexivity.
  destruct pattern as [| | | |p|]; try reflexivity.
  destruct (isWindows E) eqn:Hw.
  - unfold bash; now rewrite Hw.
  - rewrite !bash_spec by assumption; now rewrite Pa, Eq.
Qed.

End Primary.

Section PrimaryClaims.

Variable E : env.

(** C1. Once [createOptions] has returned the canonical record and the
    shell has been run, [bash] looks at the trimmed, decoded streams only: if
    the error stream is not empty it throws that text when the record has
    [strictErrors === true] and returns [false] otherwise; if it is empty it
    returns whether the output stream is not empty. *)
Theorem bash_interprets_streams
  (s p : string) (options opts : value) (st st1 st2 st3 : state)
  (path : string) (args : list string) (res : spawn_result) :
  isWindows E = false ->
  createOptions E p options st = (Normal opts, st1) ->
  getBashPath E st1 = (Normal path, st2) ->
  cmd s p opts st2 = (Normal args, st3) ->
  spawn_sync E path args (content st3 opts) = Normal res ->
  fst (bash E (VStr s) (VStr p) options st)
  = if nonempty (toString (stderr res))
    then if is_true (Obj.get (content st3 opts) "strictErrors")
         then Abrupt (JsString (toString (stderr res)))
         else Normal false
    else Normal (nonempty (toString (stdout res))).
Proof.
  intros Hw Hc Hp Hcmd Hs; unfold bash; rewrite Hw, Hc.
  unfold try_catch, bind; rewrite Hp, Hcmd; unfold spawn; rewrite Hs.
  destruct (nonempty (toString (stderr res))).
  - rewrite handleError_spec, content_state; unfold handled.
    destruct (is_true (Obj.get (content st3 opts) "strictErrors")) eqn:St.
    + rewrite handleError_spec, content_state; unfold handled.
      now rewrite St.
    + reflexivity.
  - unfold ret; now rewrite negb_involutive.
Qed.

(** C6. [bash] throws at once, leaving the state as it found it (no call to
    [spawn.sync] is logged, nothing is probed or allocated), whatever the
    options are: a [TypeError] when the subject or the pattern is not a
    string, an [Error] when both are strings and the platform is Windows. *)
Theorem bash_rejects_early (str pattern options : value) (st : state) :
  (forall s, str <> VStr s) \/ (forall p, pattern <> VStr p)
  \/ isWindows E = true ->
  exists e,
    bash E str pattern options st = (Abrupt e, st)
    /\ ((forall s, str <> VStr s) \/ (forall p, pattern <> VStr p) ->
        e = JsTypeError "expected a string")
    /\ ((exists s p, str = VStr s /\ pattern = VStr p) ->
        e = JsError "bash-match does not work on windows").
Proof.
  intros H.
  assert (Str : forall s, ~ (forall s', VStr s <> VStr s'))
    by (intros s Hs; now apply (Hs s)).
  destruct str as [| | | |s|];
    try (eexists; split; [reflexivity|]; split;
         [reflexivity | intros (s' & p' & Hs' & _); discriminate Hs']).
  destruct pattern as [| | | |p|];
    try (eexists; split; [reflexivity|]; split;
         [reflexivity | intros (s' & p' & _ & Hp'); discriminate Hp']).
  destruct H as [H | [H | Hw]]; [now elim (Str s) | now elim (Str p) |].
  unfold bash; rewrite Hw; eexists; split; [reflexivity|]; split.
  - intros [H | H]; [now elim (Str s) | now elim (Str p)].
  - reflexivity.
Qed.

(** C10. [bash.isMatch] and [bash] complete alike, and leave the same
    state, on all arguments. *)
Theorem isMatch_is_bash (fixture pattern options : value) (st : state) :
  isMatch E fixture pattern options st = bash E fixture pattern options st.
Proof. reflexivity. Qed.

End PrimaryClaims.

Lemma bash_interprets_streams_witness :
  isWindows Sample.posix = false
  /\ fst (bash Sample.posix (VStr "foo") (VStr "(") (VObj 0)
            (Sample.holding Sample.strict))
     = Abrupt (JsString "bash: syntax error").
Proof.
  split; [reflexivity|].
  eapply eq_trans.
  - eapply (bash_interprets_streams Sample.posix "foo" "(" (VObj 0) _
              (Sample.holding Sample.strict)); reflexivity.
  - reflexivity.
Defined.

Lemma bash_rejects_early_witness :
  (forall s, VNum 123 <> VStr s)
  /\ exists e,
       bash Sample.posix (VNum 123) (VStr "f*") (VObj 0)
            (Sample.holding Sample.strict)
       = (Abrupt e, Sample.holding Sample.strict)
       /\ ((forall s, VNum 123 <> VStr s) \/ (forall p, VStr "f*" <> VStr p) ->
           e = JsTypeError "expected a string")
       /\ ((exists s p, VNum 123 = VStr s /\ VStr "f*" = VStr p) ->
           e = JsError "bash-match does not work on windows").
Proof.
  split; [intros s; discriminate|].
  apply (bash_rejects_early Sample.posix (VNum 123) (VStr "f*") (VObj 0)
           (Sample.holding Sample.strict)).
  left; intros s; discriminate.
Defined.

(** On Windows the error is raised before anything else happens. *)
Example bash_on_windows :
  bash Sample.windows (VStr "foo") (VStr "f*") (VObj 0)
       (Sample.holding Sample.no_options)
  = (Abrupt (JsError "bash-match does not work on windows"),
     Sample.holding Sample.no_options).
Proof. reflexivity. Qed.

(** ** The batch call *)

Section Batch.

Variable E : env.
Variables pattern options : value.

(** What the single-item call answers for [x], asked in the state [st]. *)
Let answer (st : state) (x : value) : completion bool :=
  fst (isMatch E x pattern options st).

Lemma match_loop_returns (st0 : state) (l : list value) :
  (forall x, In x l -> exists b, answer st0 x = Normal b) ->
  forall (matches : list value) (st : state),
    effective_path E st = effective_path E st0 ->
    live st options ->
    content st options = content st0 options ->
    fst (match_loop E l pattern options matches st)
    = Normal (matches ++ filter (fun x => returns_true (answer st0 x)) l).
Proof.
  unfold answer, isMatch.
  induction l as [|x l IH]; intros Hall matches st Pa Lv Eq; simpl.
  - now rewrite app_nil_r.
  - destruct (Hall x (or_introl eq_refl)) as [b Hb].
    assert (Hx : fst (bash E x pattern options st) = Normal b).
    { rewrite <- Hb; apply bash_stable; assumption. }
    destruct (bash_preserves E x pattern options st Lv) as (Pa' & Lv' & Eq').
    unfold bind, isMatch.
    destruct (bash E x pattern options st) as [c st']; simpl in Hx, Pa', Lv', Eq'.
    subst c; rewrite IH.
    + rewrite Hb; simpl.
      destruct b; [now rewrite <- app_assoc | reflexivity].
    + intros y Hy; apply Hall; now right.
    + now rewrite Pa'.
    + exact Lv'.
    + now rewrite Eq'.
Qed.

(** The first call that throws ends the loop with its exception. *)
Lemma match_loop_raises (st0 : state) (l1 l2 : list value) (x : value) (e : thrown) :
  (forall y, In y l1 -> exists b, answer st0 y = Normal b) ->
  answer st0 x = Abrupt e ->
  forall (matches : list value) (st : state),
    effective_path E st = effective_path E st0 ->
    live st options ->
    content st options = content st0 options ->
    fst (match_loop E (l1 ++ x :: l2) pattern options matches st) = Abrupt e.
Proof.
  unfold answer, isMatch.
  induction l1 as [|y l1 IH]; intros Hall Hx matches st Pa Lv Eq; simpl.
  - assert (H : fst (bash E x pattern options st) = Abrupt e).
    { rewrite <- Hx; apply bash_stable; assumption. }
    unfold bind, isMatch; destruct (bash E x pattern options st) as [c st'].
    simpl in H; now subst c.
  - destruct (Hall y (or_introl eq_refl)) as [b Hb].
    assert (Hy : fst (bash E y pattern options st) = Normal b).
    { rewrite <- Hb; apply bash_stable; assumption. }
    destruct (bash_preserves E y pattern options st Lv) as (Pa' & Lv' & Eq').
    unfold bind, isMatch.
    destruct (bash E y pattern options st) as [c st']; simpl in Hy, Pa', Lv', Eq'.
    subst c; apply IH;
      [intros z Hz; apply Hall; now right | exact Hx | now rewrite Pa'
      | exact Lv' | now rewrite Eq'].
Qed.

(** C8. When no single-item call throws, [bash.match] returns the elements
    of the list for which [bash.isMatch] returns [true], each as often and
    in the place it occurs in the list; a subject that is not an array is
    handled as the array of that one subject. The options, when they are an
    object, are a live one. *)
Theorem bash_match_filters (l : list value) (v : value) (st : state) :
  live st options ->
  (forall x, In x l ->
             exists b, fst (isMatch E x pattern options st) = Normal b) ->
  fst (bash_match E (ArrayOf l) pattern options st)
  = Normal (filter (fun x => returns_true (fst (isMatch E x pattern options st))) l)
  /\ bash_match E (OneSubject v) pattern options st
     = bash_match E (ArrayOf [v]) pattern options st.
Proof.
  intros Lv Hall; split; [|reflexivity].
  unfold bash_match.
  now rewrite (match_loop_returns st l Hall [] st eq_refl Lv eq_refl).
Qed.

(** X20. When a single-item call throws, [bash.match] throws what the first
    such call throws. *)
Lemma bash_match_raises (l1 l2 : list value) (x : value) (e : thrown) (st : state) :
  live st options ->
  (forall y, In y l1 ->
             exists b, fst (isMatch E y pattern options st) = Normal b) ->
  fst (isMatch E x pattern options st) = Abrupt e ->
  fst (bash_match E (ArrayOf (l1 ++ x :: l2)) pattern options st) = Abrupt e.
Proof.
  intros Lv Hall Hx; unfold bash_match.
  now apply (match_loop_raises st l1 l2 x e Hall Hx [] st eq_refl Lv eq_refl).
Qed.

End Batch.

Lemma bash_match_filters_witness :
  live (Sample.holding Sample.no_options) (VObj 0)
  /\ fst (bash_match Sample.posix
            (ArrayOf [VStr "foo"; VStr "bar"; VStr "foo"]) (VStr "f*") (VObj 0)
            (Sample.holding Sample.no_options))
     = Normal [VStr "foo"; VStr "foo"].
Proof.
  split; [simpl; lia|].
  refine (eq_trans
            (proj1 (bash_match_filters Sample.posix (VStr "f*") (VObj 0)
                      [VStr "foo"; VStr "bar"; VStr "foo"] VUndefined
                      (Sample.holding Sample.no_options) _ _)) _).
  - simpl; lia.
  - intros x [<- | [<- | [<- | []]]]; eexists; reflexivity.
  - reflexivity.
Defined.

(** * Further properties of the code *)

(** ** [toString] *)

Module Trim.

Lemma all_space_app (a b : string) :
  all_space (a ++ b)%string = all_space a && all_space b.
Proof.
  induction a as [|c a IH]; simpl; [reflexivity|].
  now rewrite IH, andb_assoc.
Qed.

Lemma trimStart_split (s : string) :
  exists pre,
    s = (pre ++ trimStart s)%string
    /\ all_space pre = true
    /\ forall c, first_char (trimStart s) = Some c -> is_space c = false.
Proof.
  induction s as [|c s (pre & Eq & Sp & Cl)]; simpl.
  - exists ""; repeat split; discriminate.
  - destruct (is_space c) eqn:Hc.
    + exists (String c pre); simpl; rewrite Hc, Sp, <- Eq.
      repeat split; exact Cl.
    + exists ""; repeat split.
      intros c' H; simpl in H; now inversion H; subst.
Qed.

Lemma last_char_cons (c d : ascii) (s : string) :
  last_char (String c (String d s)) = last_char (String d s).
Proof.
  change (last_char (String c (String d s)))
    with (match last_char (String d s) with
          | None => Some c
          | found => found
          end).
  destruct (last_char (String d s)) eqn:L; [reflexivity|].
  simpl in L; destruct (last_char s); discriminate.
Qed.

Lemma trimEnd_split (s : string) :
  exists post,
    s = (trimEnd s ++ post)%string
    /\ all_space post = true
    /\ forall c, last_char (trimEnd s) = Some c -> is_space c = false.
Proof.
  induction s as [|c s (post & Eq & Sp & Cl)]; simpl.
  - exists ""; repeat split; discriminate.
  - destruct (trimEnd s) as [|d k] eqn:T.
    + simpl in Eq; subst post; destruct (is_space c) eqn:Hc.
      * exists (String c s); simpl; rewrite Hc, Sp; repeat split; discriminate.
      * exists s; repeat split; [exact Sp|].
        intros c' H; simpl in H; now inversion H; subst.
    + exists post; split; [simpl; now rewrite Eq at 1|].
      split; [exact Sp|].
      intros c' H; rewrite last_char_cons in H; now apply Cl.
Qed.

Lemma trimEnd_first (s : string) (c : ascii) :
  first_char (trimEnd s) = Some c -> first_char s = Some c.
Proof.
  destruct (trimEnd_split s) as (post & Eq & _).
  destruct (trimEnd s); simpl; [discriminate|].
  intros H; rewrite Eq; exact H.
Qed.

Lemma trimStart_all_space (s : string) : all_space s = true -> trimStart s = "".
Proof.
  induction s as [|c s IH]; simpl; [reflexivity|].
  intros H; apply andb_true_iff in H; destruct H as [Hc Hs].
  rewrite Hc; now apply IH.
Qed.

Lemma trimStart_clean (s : string) :
  (forall c, first_char s = Some c -> is_space c = false) -> trimStart s = s.
Proof.
  destruct s as [|c s]; simpl; [reflexivity|].
  intros H; now rewrite (H c eq_refl).
Qed.

Lemma trimEnd_idem (s : string) : trimEnd (trimEnd s) = trimEnd s.
Proof.
  induction s as [|c s IH]; simpl; [reflexivity|].
  destruct (trimEnd s) as [|d k] eqn:T.
  - destruct (is_space c) eqn:Hc; simpl; [reflexivity | now rewrite Hc].
  - change (trimEnd (String c (String d k)))
      with (match trimEnd (String d k) with
            | EmptyString => if is_space c then EmptyString else String c EmptyString
            | kept => String c kept
            end).
    now rewrite IH.
Qed.

Lemma toString_Some (s : string) : toString (Some s) = trim s.
Proof. now destruct s. Qed.

Lemma trim_split (s : string) :
  exists pre post,
    s = (pre ++ trim s ++ post)%string
    /\ all_space pre = true
    /\ all_space post = true
    /\ (forall c, first_char (trim s) = Some c -> is_space c = false)
    /\ (forall c, last_char (trim s) = Some c -> is_space c = false).
Proof.
  unfold trim.
  destruct (trimStart_split s) as (pre & Eq & Sp & Cl).
  destruct (trimEnd_split (trimStart s)) as (post & Eq' & Sp' & Cl').
  exists pre, post; repeat split; try assumption.
  - now rewrite <- Eq'.
  - intros c H; apply Cl; now apply trimEnd_first.
Qed.

End Trim.

(** X1. [toString(buf)] is the text of [buf] without the white space at its
    two ends: the text is white space, then [toString(buf)], then white
    space, and [toString(buf)] neither begins nor ends with white space. *)
Theorem toString_strips_both_ends (s : string) :
  exists pre post,
    s = (pre ++ toString (Some s) ++ post)%string
    /\ all_space pre = true
    /\ all_space post = true
    /\ (forall c, first_char (toString (Some s)) = Some c -> is_space c = false)
    /\ (forall c, last_char (toString (Some s)) = Some c -> is_space c = false).
Proof. rewrite Trim.toString_Some; apply Trim.trim_split. Qed.

(** X2. [toString(buf)] is the empty string exactly when [buf] is [null]
    or its text is white space only (the empty text included). *)
Theorem toString_empty_iff (buf : option string) :
  toString buf = ""
  <-> match buf with
      | None => True
      | Some s => all_space s = true
      end.
Proof.
  destruct buf as [s|]; [|split; [trivial | reflexivity]].
  split.
  - intros H.
    rewrite Trim.toString_Some in H.
    destruct (Trim.trim_split s) as (pre & post & Eq & Sp & Sp' & _).
    rewrite H in Eq; simpl in Eq; rewrite Eq, Trim.all_space_app.
    now rewrite Sp, Sp'.
  - intros H; rewrite Trim.toString_Some; unfold trim.
    now rewrite Trim.trimStart_all_space.
Qed.

(** X3. Stripping is done once and for all: [toString] of a text that
    [toString] returned is that text. *)
Theorem toString_idempotent (buf : option string) :
  toString (Some (toString buf)) = toString buf.
Proof.
  rewrite Trim.toString_Some.
  assert (G : forall s, trim (trim s) = trim s).
  { intros s; unfold trim at 1.
    rewrite Trim.trimStart_clean.
    - unfold trim; apply Trim.trimEnd_idem.
    - intros c H; unfold trim in H; apply Trim.trimEnd_first in H.
      destruct (Trim.trimStart_split s) as (_ & _ & _ & Cl); now apply Cl. }
  destruct buf as [s|]; [rewrite Trim.toString_Some; apply G | reflexivity].
Qed.

(** ** [getBashPath] *)

(** X4. [getBashPath] answers a path that is not empty and remembers it:
    any later call, whatever the file system has become, answers the same
    path and changes nothing; neither call touches the heap or runs a
    shell. *)
Theorem getBashPath_memoized (E E' : env) (st : state) :
  exists path,
    fst (getBashPath E st) = Normal path
    /\ nonempty path = true
    /\ getBashPath E' (snd (getBashPath E st))
       = (Normal path, snd (getBashPath E st))
    /\ st_heap (snd (getBashPath E st)) = st_heap st
    /\ spawned (snd (getBashPath E st)) = spawned st.
Proof.
  rewrite getBashPath_spec; exists (effective_path E st); simpl.
  split; [reflexivity|]; split; [apply effective_path_nonempty|].
  split; [|split; reflexivity].
  unfold getBashPath; simpl; now rewrite effective_path_nonempty.
Qed.

(** ** More on [createOptions] *)

Module CanonicalValues.
Import Obj ObjFacts Closed Canonical.

Lemma get_merged_other (cwd : string) (raw : props) (k : string) :
  ("cwd" =? k)%string = false -> get (merged cwd raw) k = get raw k.
Proof.
  intros H; rewrite get_merged, H.
  destruct (has raw k) eqn:Hk; [reflexivity | now rewrite get_absent].
Qed.

Ltac literal_eqb :=
  repeat match goal with
         | |- context [String.eqb ?a ?b] =>
             let r := eval vm_compute in (String.eqb a b) in
             change (String.eqb a b) with r
         end.

Ltac read_key :=
  unfold canonical, aliased;
  repeat first [ rewrite has_set_if | rewrite get_set_if
               | rewrite has_set | rewrite get_set
               | rewrite get_merged_other by reflexivity
               | rewrite has_merged ];
  literal_eqb;
  rewrite ?andb_false_r, ?andb_true_r, ?orb_false_r; cbv beta iota.

Lemma other_keys (cwd pattern : string) (raw : props) (k : string) :
  ~ In k ("cwd" :: "normalized" :: valid) ->
  get (canonical cwd pattern raw) k = get raw k.
Proof.
  intros H; unfold canonical, aliased.
  repeat first [ rewrite get_set_if | rewrite get_set ].
  repeat match goal with
         | |- context [String.eqb ?a k] =>
             destruct (String.eqb_spec a k) as [<-|_];
               [exfalso; apply H; simpl; tauto|]
         end.
  rewrite ?andb_false_r; cbv beta iota.
  apply get_merged_other.
  destruct (String.eqb_spec "cwd" k) as [<-|_];
    [exfalso; apply H; simpl; tauto | reflexivity].
Qed.

Lemma cwd_value (cwd pattern : string) (raw : props) :
  get (canonical cwd pattern raw) "cwd"
  = if has raw "cwd" then get raw "cwd" else VStr cwd.
Proof.
  unfold canonical, aliased.
  repeat first [ rewrite get_set_if | rewrite get_set ].
  literal_eqb; rewrite ?andb_false_r; cbv beta iota.
  now rewrite get_merged.
Qed.

Lemma nocaseglob_value (cwd pattern : string) (raw : props) :
  get (canonical cwd pattern raw) "nocaseglob"
  = if is_true (get raw "nocase") then VBool true else get raw "nocaseglob".
Proof. read_key; reflexivity. Qed.

Lemma nullglob_value (cwd pattern : string) (raw : props) :
  get (canonical cwd pattern raw) "nullglob"
  = if is_true (get raw "nonull") then VBool true else get raw "nullglob".
Proof. read_key; reflexivity. Qed.

Lemma dotglob_value (cwd pattern : string) (raw : props) :
  get (canonical cwd pattern raw) "dotglob"
  = if is_true (get raw "dot") then VBool true else get raw "dotglob".
Proof. read_key; reflexivity. Qed.

Lemma failglob_value (cwd pattern : string) (raw : props) :
  get (canonical cwd pattern raw) "failglob" = get raw "failglob".
Proof. read_key; reflexivity. Qed.

Lemma globstar_exact (cwd pattern : string) (raw : props) :
  get (canonical cwd pattern raw) "globstar"
  = if has raw "globstar" then get raw "globstar"
    else if (indexOf pattern "**" =? -1)%Z then VUndefined else VBool true.
Proof.
  read_key.
  destruct (has raw "globstar") eqn:Hk; simpl; [reflexivity|].
  destruct (indexOf pattern "**" =? -1)%Z; simpl;
    [now apply get_absent | reflexivity].
Qed.

Lemma extglob_exact (cwd pattern : string) (raw : props) :
  get (canonical cwd pattern raw) "extglob"
  = if has raw "extglob" then get raw "extglob"
    else if isExtglob pattern then VBool true else VUndefined.
Proof.
  read_key.
  destruct (has raw "extglob") eqn:Hk; simpl; [reflexivity|].
  destruct (isExtglob pattern); simpl; [reflexivity | now apply get_absent].
Qed.

Lemma has_canonical_shadow (cwd pattern : string) (raw : props) :
  has (canonical cwd pattern raw) "hasOwnProperty" = has raw "hasOwnProperty".
Proof.
  unfold canonical; rewrite has_set, !has_set_if, has_aliased_shadow.
  literal_eqb; now rewrite !andb_false_r.
Qed.

Lemma In_keys_set (o : props) (k k' : string) (v : value) :
  In k' (keys (set o k v)) <-> k = k' \/ In k' (keys o).
Proof.
  rewrite <- !has_In, has_set, orb_true_iff, String.eqb_eq; tauto.
Qed.

Lemma NoDup_set (o : props) (k : string) (v : value) :
  NoDup (keys o) -> NoDup (keys (set o k v)).
Proof.
  induction o as [|[k0 v0] o IH]; simpl; intros H.
  - constructor; [tauto | constructor].
  - inversion H as [|? ? Hn Hd]; subst.
    destruct (String.eqb_spec k0 k) as [->|Hk]; simpl.
    + now constructor.
    + constructor; [|now apply IH].
      fold (keys (set o k v)); rewrite In_keys_set.
      intros [-> | Hin]; [now apply Hk | now apply Hn].
Qed.

Lemma NoDup_set_if (b : bool) (o : props) (k : string) (v : value) :
  NoDup (keys o) -> NoDup (keys (set_if b o k v)).
Proof. destruct b; simpl; [apply NoDup_set | trivial]. Qed.

Lemma NoDup_canonical (cwd pattern : string) (raw : props) :
  NoDup (keys (canonical cwd pattern raw)).
Proof.
  unfold canonical, aliased.
  apply NoDup_set; repeat apply NoDup_set_if.
  unfold merged.
  assert (G : forall ks a, NoDup (keys a) ->
                NoDup (keys (fold_left (fun a key => set a key (get raw key)) ks a))).
  { induction ks as [|k ks IH]; intros a Ha; simpl; [exact Ha|].
    apply IH; now apply NoDup_set. }
  apply G; simpl; constructor; [tauto | constructor].
Qed.

Lemma canonical_of_nothing (cwd pattern : string) :
  canonical cwd pattern []
  = [("cwd", VStr cwd)]
    ++ (if (indexOf pattern "**" =? -1)%Z then [] else [("globstar", VBool true)])
    ++ (if isExtglob pattern then [("extglob", VBool true)] else [])
    ++ [("normalized", VBool true)].
Proof.
  unfold canonical, aliased, merged; simpl.
  destruct (indexOf pattern "**" =? -1)%Z; destruct (isExtglob pattern);
    reflexivity.
Qed.

End CanonicalValues.

Lemma createOptions_builds (E : env) (pattern : string) (options : value) (st : state) :
  marked st options = false ->
  Obj.has (content st options) "hasOwnProperty" = false ->
  createOptions E pattern options st
  = (Normal (VObj (List.length (st_heap st))),
     State (st_heap st ++ [canonical (process_cwd E) pattern (content st options)])
           (bashPath st) (spawned st)).
Proof. intros Mk Sh; rewrite createOptions_spec, Mk; cbv zeta; now rewrite Sh. Qed.

Section MoreOnNormaliser.

Variable E : env.
Variables (pattern : string) (options : value) (st : state).

Hypothesis not_marked : marked st options = false.
Hypothesis not_shadowed : Obj.has (content st options) "hasOwnProperty" = false.

Let raw : Obj.props := content st options.
Let made : Obj.props :=
  content (snd (createOptions E pattern options st))
          (VObj (List.length (st_heap st))).

Lemma made_canonical :
  fst (createOptions E pattern options st)
  = Normal (VObj (List.length (st_heap st)))
  /\ made = canonical (process_cwd E) pattern raw.
Proof.
  unfold made; rewrite createOptions_builds by assumption; simpl.
  now rewrite deref_last.
Qed.

(** X5. The record [createOptions] builds gives every key that is not
    [cwd], [normalized] or a shell toggle the value of the raw record
    ([strictErrors] among them, and [undefined] for a key the raw record
    lacks); its [cwd] is the caller's when the raw record has one, and
    [process.cwd()] otherwise; [failglob] is never set by the code. *)
Theorem createOptions_keeps_values :
  fst (createOptions E pattern options st)
  = Normal (VObj (List.length (st_heap st)))
  /\ (forall k, ~ In k ("cwd" :: "normalized" :: valid) ->
                Obj.get made k = Obj.get raw k)
  /\ Obj.get made "cwd"
     = (if Obj.has raw "cwd" then Obj.get raw "cwd" else VStr (process_cwd E))
  /\ Obj.get made "failglob" = Obj.get raw "failglob".
Proof.
  destruct made_canonical as [R ->]; split; [exact R|].
  split; [intros k; apply CanonicalValues.other_keys|].
  split; [apply CanonicalValues.cwd_value | apply CanonicalValues.failglob_value].
Qed.

(** X6. Alias expansion: in the record [createOptions] builds,
    [nocaseglob] is [true] when the raw record has [nocase === true] and has
    the raw value of [nocaseglob] otherwise; likewise [nullglob] with
    [nonull] and [dotglob] with [dot]. An alias that is [true] thus
    overrides an explicit [false] of its toggle, and an alias that is only
    truthy expands to nothing. *)
Theorem createOptions_expands_aliases :
  fst (createOptions E pattern options st)
  = Normal (VObj (List.length (st_heap st)))
  /\ Obj.get made "nocaseglob"
     = (if is_true (Obj.get raw "nocase") then VBool true
        else Obj.get raw "nocaseglob")
  /\ Obj.get made "nullglob"
     = (if is_true (Obj.get raw "nonull") then VBool true
        else Obj.get raw "nullglob")
  /\ Obj.get made "dotglob"
     = (if is_true (Obj.get raw "dot") then VBool true
        else Obj.get raw "dotglob").
Proof.
  destruct made_canonical as [R ->]; split; [exact R|].
  split; [apply CanonicalValues.nocaseglob_value|].
  split; [apply CanonicalValues.nullglob_value | apply CanonicalValues.dotglob_value].
Qed.

(** X7. Inference from the pattern, exactly: in the record [createOptions]
    builds, [globstar] has the raw value when the raw record has the key,
    and otherwise is [true] if the pattern contains two stars in a row and
    absent if not; [extglob] has the raw value when the raw record has the
    key, and otherwise is [true] if [isExtglob] accepts the pattern and
    absent if not. *)
Theorem createOptions_infers_exactly :
  fst (createOptions E pattern options st)
  = Normal (VObj (List.length (st_heap st)))
  /\ Obj.get made "globstar"
     = (if Obj.has raw "globstar" then Obj.get raw "globstar"
        else if (indexOf pattern "**" =? -1)%Z then VUndefined else VBool true)
  /\ Obj.get made "extglob"
     = (if Obj.has raw "extglob" then Obj.get raw "extglob"
        else if isExtglob pattern then VBool true else VUndefined).
Proof.
  destruct made_canonical as [R ->]; split; [exact R|].
  split; [apply CanonicalValues.globstar_exact | apply CanonicalValues.extglob_exact].
Qed.

(** X8. The record [createOptions] builds has no key twice, whatever the
    raw record is; it is added at the end of the heap, and the cached shell
    path and the log of shell calls are left alone. *)
Theorem createOptions_distinct_keys :
  fst (createOptions E pattern options st)
  = Normal (VObj (List.length (st_heap st)))
  /\ NoDup (Obj.keys made)
  /\ List.length (st_heap (snd (createOptions E pattern options st)))
     = S (List.length (st_heap st))
  /\ bashPath (snd (createOptions E pattern options st)) = bashPath st
  /\ spawned (snd (createOptions E pattern options st)) = spawned st.
Proof.
  destruct made_canonical as [R ->]; split; [exact R|].
  split; [apply CanonicalValues.NoDup_canonical|].
  rewrite createOptions_builds by assumption; simpl.
  rewrite length_app; simpl; repeat split; lia.
Qed.

End MoreOnNormaliser.

(** X9. Without an options object ([undefined], [null] or any primitive),
    [createOptions] builds the record that holds [cwd: process.cwd()], then
    [globstar: true] if the pattern contains two stars in a row, then
    [extglob: true] if [isExtglob] accepts the pattern, then
    [normalized: true], and nothing else. *)
Theorem createOptions_without_options (E : env) (pattern : string)
  (options : value) (st : state) :
  (forall r, options <> VObj r) ->
  createOptions E pattern options st
  = (Normal (VObj (List.length (st_heap st))),
     State (st_heap st
            ++ [[("cwd", VStr (process_cwd E))]
                ++ (if (indexOf pattern "**" =? -1)%Z then []
                    else [("globstar", VBool true)])
                ++ (if isExtglob pattern then [("extglob", VBool true)] else [])
                ++ [("normalized", VBool true)]])
           (bashPath st) (spawned st)).
Proof.
  intros H.
  assert (C : content st options = []).
  { destruct options as [| | | | |r]; try reflexivity; now elim (H r). }
  rewrite createOptions_builds.
  - now rewrite C, CanonicalValues.canonical_of_nothing.
  - unfold marked; now rewrite C.
  - now rewrite C.
Qed.

(** ** More on [cmd] *)

Lemma length_flags (ks : list string) :
  List.length (flat_map (fun k => ["-O"; k]) ks) = 2 * List.length ks.
Proof. induction ks as [|k ks IH]; simpl; [reflexivity | rewrite IH; lia]. Qed.

Lemma valid_keys_bound (ks : list string) :
  NoDup ks -> List.length (filter is_valid ks) <= 6.
Proof.
  intros H; change 6 with (List.length valid).
  apply NoDup_incl_length; [now apply NoDup_filter|].
  intros k Hk; apply filter_In in Hk; now apply is_valid_In.
Qed.

(** X10. For a record that does not shadow [hasOwnProperty], [cmd] pushes
    [-O] and the key for every key of the record that is one of the six
    toggle names, whatever value the key has, in the order in which the keys
    were inserted, then [-c] and the script; it changes nothing in the
    state. *)
Theorem cmd_compiles_present_keys (str pattern : string) (r : ref) (st : state) :
  Obj.has (deref (st_heap st) r) "hasOwnProperty" = false ->
  cmd str pattern (VObj r) st
  = (Normal (flat_map (fun k => ["-O"; k])
                      (filter is_valid (Obj.keys (deref (st_heap st) r)))
             ++ ["-c"; script str pattern]),
     st).
Proof. intros Sh; rewrite cmd_spec; simpl content; now rewrite Sh, toggle_args_keys. Qed.

(** X11. For a record whose keys are distinct and that does not shadow
    [hasOwnProperty], the argument list of [cmd] has two entries per toggle
    key of the record and two more, so at most fourteen. *)
Theorem cmd_length_bound (str pattern : string) (r : ref) (st : state) :
  NoDup (Obj.keys (deref (st_heap st) r)) ->
  Obj.has (deref (st_heap st) r) "hasOwnProperty" = false ->
  exists args,
    fst (cmd str pattern (VObj r) st) = Normal args
    /\ List.length args
       = 2 * List.length (filter is_valid (Obj.keys (deref (st_heap st) r))) + 2
    /\ List.length args <= 14.
Proof.
  intros Nd Sh; rewrite cmd_spec; simpl content; rewrite Sh, toggle_args_keys.
  eexists; split; [reflexivity|].
  rewrite length_app, length_flags; simpl.
  pose proof (valid_keys_bound _ Nd); lia.
Qed.


(** ** More on [bash] *)

Section Trace.

Variable E : env.

(** The [try] statement of [bash], with the state it leaves. *)
Lemma try_trace (s p : string) (opts : value) (st : state) :
  try_catch
    (path <- getBashPath E ;;
     args <- cmd s p opts ;;
     res <- spawn E path args opts ;;
     if nonempty (toString (stderr res))
     then handleError (JsString (toString (stderr res))) opts
     else ret (negb (negb (nonempty (toString (stdout res))))))
    (fun e => handleError e opts) st
  = (outcome E (effective_path E st) s p (content st opts),
     State (st_heap st) (Some (effective_path E st))
           (spawned st
            ++ if Obj.has (content st opts) "hasOwnProperty" then []
               else [(effective_path E st,
                      toggle_args (content st opts) ++ ["-c"; script s p])])).
Proof.
  unfold try_catch, bind at 1.
  rewrite (getBashPath_spec E st); cbv beta iota.
  unfold bind at 1; rewrite cmd_spec, content_state; unfold outcome.
  destruct (Obj.has (content st opts) "hasOwnProperty").
  - now rewrite handleError_spec, content_state, app_nil_r.
  - unfold bind, spawn; simpl st_heap; simpl bashPath; simpl spawned.
    rewrite content_state.
    destruct (spawn_sync E (effective_path E st) _ (content st opts)) as [res|e].
    + destruct (nonempty (toString (stderr res))).
      * rewrite handleError_spec, content_state; unfold handled.
        destruct (is_true (Obj.get (content st opts) "strictErrors")) eqn:St.
        -- rewrite handleError_spec, content_state; unfold handled.
           now rewrite St.
        -- reflexivity.
      * unfold ret; now rewrite negb_involutive.
    + now rewrite handleError_spec, content_state.
Qed.

(** [bash] on strings, on a POSIX platform: the result and the state. *)
Lemma bash_trace (s p : string) (options : value) (st : state) :
  isWindows E = false ->
  let raw := content st options in
  let path := effective_path E st in
  let shadow := Obj.has raw "hasOwnProperty" in
  bash E (VStr s) (VStr p) options st
  = (verdict E path s p raw,
     State (st_heap st
            ++ if marked st options then []
               else [if shadow then aliased (process_cwd E) raw
                     else canonical (process_cwd E) p raw])
           (if negb (marked st options) && shadow then bashPath st
            else Some path)
           (spawned st
            ++ if shadow then []
               else [(path, toggle_args (seen E p raw) ++ ["-c"; script s p])])).
Proof.
  intros Hw raw path shadow; subst raw path shadow.
  unfold bash, verdict, seen; rewrite Hw, createOptions_spec.
  fold (marked st options); destruct (marked st options) eqn:Mk;
    cbv beta iota zeta.
  - rewrite try_trace, app_nil_r; simpl negb; simpl andb; reflexivity.
  - destruct (Obj.has (content st options) "hasOwnProperty") eqn:Sh.
    + rewrite handleError_spec, app_nil_r; reflexivity.
    + rewrite try_trace; simpl content; rewrite deref_last.
      rewrite CanonicalValues.has_canonical_shadow, Sh; reflexivity.
Qed.

Lemma outcome_lenient (path s p : string) (o : Obj.props) :
  is_true (Obj.get o "strictErrors") = false ->
  exists b, outcome E path s p o = Normal b.
Proof.
  intros St; unfold outcome, handled; rewrite St.
  destruct (Obj.has o "hasOwnProperty"); [eauto|].
  destruct (spawn_sync E path _ o) as [res|e]; [|eauto].
  destruct (nonempty (toString (stderr res))); eauto.
Qed.

End Trace.

Section MoreOnPrimary.

Variable E : env.

(** X13. When [spawn.sync] itself throws, [bash] throws the same exception
    if the canonical record has [strictErrors === true], and returns [false]
    otherwise. *)
Theorem bash_spawn_failure
  (s p : string) (options opts : value) (st st1 st2 st3 : state)
  (path : string) (args : list string) (e : thrown) :
  isWindows E = false ->
  createOptions E p options st = (Normal opts, st1) ->
  getBashPath E st1 = (Normal path, st2) ->
  cmd s p opts st2 = (Normal args, st3) ->
  spawn_sync E path args (content st3 opts) = Abrupt e ->
  fst (bash E (VStr s) (VStr p) options st)
  = if is_true (Obj.get (content st3 opts) "strictErrors")
    then Abrupt e else Normal false.
Proof.
  intros Hw Hc Hp Hcmd Hs; unfold bash; rewrite Hw, Hc.
  unfold try_catch, bind; rewrite Hp, Hcmd; unfold spawn; rewrite Hs.
  rewrite handleError_spec, content_state; unfold handled.
  now destruct (is_true (Obj.get (content st3 opts) "strictErrors")).
Qed.

(** X14. Unless the raw record has [strictErrors === true], [bash] on two
    strings on a POSIX platform returns a boolean: nothing the shell prints,
    no failure to launch it and no options record makes it throw. *)
Theorem bash_lenient_never_throws (s p : string) (options : value) (st : state) :
  isWindows E = false ->
  is_true (Obj.get (content st options) "strictErrors") = false ->
  exists b, fst (bash E (VStr s) (VStr p) options st) = Normal b.
Proof.
  intros Hw St; rewrite bash_spec by exact Hw; unfold verdict.
  destruct (is_true (Obj.get (content st options) "normalized")).
  - now apply outcome_lenient.
  - destruct (Obj.has (content st options) "hasOwnProperty"); [eauto|].
    apply outcome_lenient.
    rewrite CanonicalValues.other_keys; [exact St|].
    simpl; intros H; decompose [or] H; discriminate || contradiction.
Qed.


Lemma bash_footprint (str pattern options : value) (st : state) :
  exists built calls,
    st_heap (snd (bash E str pattern options st)) = st_heap st ++ built
    /\ List.length built <= 1
    /\ spawned (snd (bash E str pattern options st)) = spawned st ++ calls
    /\ List.length calls <= 1
    /\ forall path args, In (path, args) calls -> path = effective_path E st.
Proof.
  assert (Idle : forall m : M bool,
             (forall st0, snd (m st0) = st0) ->
             exists built calls,
               st_heap (snd (m st)) = st_heap st ++ built
               /\ List.length built <= 1
               /\ spawned (snd (m st)) = spawned st ++ calls
               /\ List.length calls <= 1
               /\ forall path args, In (path, args) calls ->
                                    path = effective_path E st).
  { intros m Hm; exists [], []; rewrite Hm, !app_nil_r; simpl.
    repeat split; auto; intros ? ? []. }
  destruct str as [| | | |s|]; try (apply Idle; reflexivity).
  destruct pattern as [| | | |p|]; try (apply Idle; reflexivity).
  destruct (isWindows E) eqn:Hw.
  - unfold bash; rewrite Hw; apply Idle; reflexivity.
  - rewrite bash_trace by exact Hw; cbv zeta; simpl snd; simpl st_heap;
      simpl spawned.
    eexists; eexists; split; [reflexivity|]; split;
      [destruct (marked st options); simpl; lia|].
    split; [reflexivity|].
    destruct (Obj.has (content st options) "hasOwnProperty"); simpl.
    + split; [lia | intros ? ? []].
    + split; [lia | intros ? ? [H | []]; now inversion H].
Qed.

(** X16. One call of [bash], whatever its arguments, runs the shell at most
    once, at the path [getBashPath] answers in the state of the call, and
    adds at most one object to the heap. *)
Theorem bash_runs_at_most_one_shell (str pattern options : value) (st : state) :
  exists built calls,
    st_heap (snd (bash E str pattern options st)) = st_heap st ++ built
    /\ List.length built <= 1
    /\ spawned (snd (bash E str pattern options st)) = spawned st ++ calls
    /\ List.length calls <= 1
    /\ forall path args, In (path, args) calls -> path = effective_path E st.
Proof. apply bash_footprint. Qed.

(** X17. On a POSIX platform, for two strings and a raw record that does
    not shadow [hasOwnProperty], [bash] runs the shell exactly once: at the
    path [getBashPath] answers, with [-O] and the key for each toggle key of
    the record the shell is run with (the raw record if it is marked
    [normalized], the canonical one otherwise), then [-c] and the script;
    that path is cached afterwards. *)
Theorem bash_shell_call (s p : string) (options : value) (st : state) :
  isWindows E = false ->
  Obj.has (content st options) "hasOwnProperty" = false ->
  spawned (snd (bash E (VStr s) (VStr p) options st))
  = spawned st
    ++ [(effective_path E st,
         flat_map (fun k => ["-O"; k])
                  (filter is_valid (Obj.keys (seen E p (content st options))))
         ++ ["-c"; script s p])]
  /\ bashPath (snd (bash E (VStr s) (VStr p) options st))
     = Some (effective_path E st).
Proof.
  intros Hw Sh; rewrite bash_trace by exact Hw; cbv zeta; rewrite Sh; simpl.
  now rewrite andb_false_r, toggle_args_keys.
Qed.


End MoreOnPrimary.

(** ** More on [bash.match] *)

Section MoreOnBatch.

Variable E : env.
Variables pattern options : value.

Lemma match_loop_selects (l : list value) :
  forall (matches : list value) (st : state) (found : list value),
    fst (match_loop E l pattern options matches st) = Normal found ->
    exists mask,
      List.length mask = List.length l /\ found = matches ++ select l mask.
Proof.
  induction l as [|x l IH]; intros matches st found; simpl.
  - intros H; inversion H; exists []; now rewrite app_nil_r.
  - unfold bind; destruct (isMatch E x pattern options st) as [[hit|e] st'];
      [|discriminate].
    intros H; apply IH in H; destruct H as (mask & Len & ->).
    exists (hit :: mask); simpl; split; [now rewrite Len|].
    destruct hit; [now rewrite <- app_assoc | reflexivity].
Qed.

Lemma match_loop_footprint (l : list value) :
  forall (matches : list value) (st : state),
  exists calls,
    spawned (snd (match_loop E l pattern options matches st))
    = spawned st ++ calls
    /\ List.length calls <= List.length l.
Proof.
  induction l as [|x l IH]; intros matches st; simpl.
  - exists []; now rewrite app_nil_r.
  - unfold bind, isMatch.
    destruct (bash_footprint E x pattern options st)
      as (_ & calls & _ & _ & Sp & Len & _).
    destruct (bash E x pattern options st) as [[hit|e] st']; simpl in Sp.
    + destruct (IH (if hit then matches ++ [x] else matches) st')
        as (calls' & Sp' & Len').
      exists (calls ++ calls'); rewrite Sp', Sp, app_assoc, length_app.
      split; [reflexivity | lia].
    + exists calls; simpl; split; [exact Sp | lia].
Qed.

(** X19. Whenever [bash.match] returns, what it returns is a selection of
    the elements of the list, in the order of the list: nothing is added,
    reordered or changed. *)
Theorem bash_match_selects (l found : list value) (st : state) :
  fst (bash_match E (ArrayOf l) pattern options st) = Normal found ->
  exists mask, List.length mask = List.length l /\ found = select l mask.
Proof. intros H; now apply match_loop_selects in H. Qed.

(** X21. [bash.match] runs the shell at most once per element of the list;
    on the empty list it runs nothing and returns the empty list, whatever
    the pattern, the options and the platform are. *)
Theorem bash_match_shell_calls (l : list value) (st : state) :
  (exists calls,
     spawned (snd (bash_match E (ArrayOf l) pattern options st))
     = spawned st ++ calls
     /\ List.length calls <= List.length l)
  /\ bash_match E (ArrayOf []) pattern options st = (Normal [], st).
Proof. split; [apply match_loop_footprint | reflexivity]. Qed.

End MoreOnBatch.

(** ** The earlier variant *)

Section EarlierVariant.

Variable E : env.

(** The earlier [bash] on strings, on a POSIX platform: the result and the
    state. *)
Lemma legacy_trace (s p : string) (options : value) (st : state) :
  isWindows E = false ->
  let path := effective_path E st in
  let cmd := if Legacy.mentions_echo p then p else Legacy.wrapped s p in
  Legacy.bash E (VStr s) (VStr p) options st
  = (match spawn_sync E path ["-c"; cmd] (content st options) with
     | Abrupt e => handled e (content st options)
     | Normal res =>
         if nonempty (toString (stderr res))
         then handled (JsString (toString (stderr res))) (content st options)
         else Normal (nonempty (toString (stdout res)))
     end,
     State (st_heap st) (Some path) (spawned st ++ [(path, ["-c"; cmd])])).
Proof.
  intros Hw path cmd; subst path cmd; unfold Legacy.bash; rewrite Hw.
  cbv zeta; unfold try_catch, bind at 1.
  rewrite (getBashPath_spec E st); cbv beta iota.
  unfold bind, spawn; simpl st_heap; simpl bashPath; simpl spawned.
  rewrite content_state.
  replace (if negb (Legacy.mentions_echo p) then Legacy.wrapped s p else p)
    with (if Legacy.mentions_echo p then p else Legacy.wrapped s p)
    by (now destruct (Legacy.mentions_echo p)).
  destruct (spawn_sync E (effective_path E st) _ (content st options)) as [res|e].
  - destruct (nonempty (toString (stderr res))).
    + rewrite handleError_spec, content_state; unfold handled.
      destruct (is_true (Obj.get (content st options) "strictErrors")) eqn:St.
      * rewrite handleError_spec, content_state; unfold handled; now rewrite St.
      * reflexivity.
    + unfold ret; now rewrite negb_involutive.
  - now rewrite handleError_spec, content_state.
Qed.

(** X22. The earlier [bash], on two strings on a POSIX platform, runs the
    shell exactly once with the two arguments [-c] and a script, never with
    an [-O] flag; the script is the pattern itself when the pattern contains
    [echo] and the wrapped test otherwise; the heap is not touched. *)
Theorem legacy_bash_invocation (s p : string) (options : value) (st : state) :
  isWindows E = false ->
  st_heap (snd (Legacy.bash E (VStr s) (VStr p) options st)) = st_heap st
  /\ spawned (snd (Legacy.bash E (VStr s) (VStr p) options st))
     = spawned st
       ++ [(effective_path E st,
            ["-c"; if Legacy.mentions_echo p then p else Legacy.wrapped s p])].
Proof. intros Hw; rewrite legacy_trace by exact Hw; split; reflexivity. Qed.

(** X23. In the earlier [bash], a pattern that contains [echo] makes the
    subject irrelevant: the call completes alike, and leaves the same state,
    for any two subjects. *)
Theorem legacy_bash_ignores_subject (s s' p : string) (options : value) (st : state) :
  (exists pre post, p = (pre ++ "echo" ++ post)%string) ->
  Legacy.bash E (VStr s) (VStr p) options st
  = Legacy.bash E (VStr s') (VStr p) options st.
Proof.
  intros H; apply indexOf_contains in H.
  unfold Legacy.bash, Legacy.mentions_echo; now rewrite H.
Qed.

(** X24. The earlier [bash] reads the streams as the later one does, but
    against the raw options: a non-empty trimmed error stream is thrown when
    the raw options have [strictErrors === true] and gives [false]
    otherwise, an exception of [spawn.sync] likewise; with an empty error
    stream the result is whether the trimmed output stream is not empty. *)
Theorem legacy_bash_interprets_streams (s p : string) (options : value) (st : state) :
  isWindows E = false ->
  fst (Legacy.bash E (VStr s) (VStr p) options st)
  = let strict := is_true (Obj.get (content st options) "strictErrors") in
    match spawn_sync E (effective_path E st)
            ["-c"; if Legacy.mentions_echo p then p else Legacy.wrapped s p]
            (content st options) with
    | Abrupt e => if strict then Abrupt e else Normal false
    | Normal res =>
        if nonempty (toString (stderr res))
        then if strict then Abrupt (JsString (toString (stderr res)))
             else Normal false
        else Normal (nonempty (toString (stdout res)))
    end.
Proof. intros Hw; rewrite legacy_trace by exact Hw; reflexivity. Qed.

End EarlierVariant.

(** ** Examples for the properties above *)

Lemma createOptions_keeps_values_witness :
  marked (Sample.holding Sample.here) (VObj 0) = false
  /\ Obj.has (content (Sample.holding Sample.here) (VObj 0)) "hasOwnProperty" = false
  /\ Obj.get (content (snd (createOptions Sample.posix "*" (VObj 0)
                              (Sample.holding Sample.here))) (VObj 1)) "cwd"
     = VStr "/tmp".
Proof.
  split; [reflexivity|]; split; [reflexivity|].
  exact (proj1 (proj2 (proj2
           (createOptions_keeps_values Sample.posix "*" (VObj 0)
              (Sample.holding Sample.here) eq_refl eq_refl)))).
Defined.

Lemma createOptions_expands_aliases_witness :
  marked (Sample.holding Sample.dot_over_dotglob) (VObj 0) = false
  /\ Obj.has (content (Sample.holding Sample.dot_over_dotglob) (VObj 0))
             "hasOwnProperty" = false
  /\ Obj.get (content (snd (createOptions Sample.posix "*" (VObj 0)
                              (Sample.holding Sample.dot_over_dotglob)))
                      (VObj 1)) "dotglob"
     = VBool true.
Proof.
  split; [reflexivity|]; split; [reflexivity|].
  exact (proj2 (proj2 (proj2
           (createOptions_expands_aliases Sample.posix "*" (VObj 0)
              (Sample.holding Sample.dot_over_dotglob) eq_refl eq_refl)))).
Defined.

Lemma createOptions_infers_exactly_witness :
  marked (Sample.holding Sample.globstar_off) (VObj 0) = false
  /\ Obj.has (content (Sample.holding Sample.globstar_off) (VObj 0))
             "hasOwnProperty" = false
  /\ Obj.get (content (snd (createOptions Sample.posix "a/**/@(b)" (VObj 0)
                              (Sample.holding Sample.globstar_off)))
                      (VObj 1)) "globstar"
     = VBool false
  /\ Obj.get (content (snd (createOptions Sample.posix "a/**/@(b)" (VObj 0)
                              (Sample.holding Sample.globstar_off)))
                      (VObj 1)) "extglob"
     = VBool true.
Proof.
  split; [reflexivity|]; split; [reflexivity|].
  exact (proj2 (createOptions_infers_exactly Sample.posix "a/**/@(b)" (VObj 0)
                  (Sample.holding Sample.globstar_off) eq_refl eq_refl)).
Defined.

Lemma createOptions_distinct_keys_witness :
  marked (Sample.holding Sample.dot_alias) (VObj 0) = false
  /\ Obj.has (content (Sample.holding Sample.dot_alias) (VObj 0))
             "hasOwnProperty" = false
  /\ NoDup (Obj.keys (content (snd (createOptions Sample.posix "*" (VObj 0)
                                      (Sample.holding Sample.dot_alias)))
                              (VObj 1))).
Proof.
  split; [reflexivity|]; split; [reflexivity|].
  exact (proj1 (proj2
           (createOptions_distinct_keys Sample.posix "*" (VObj 0)
              (Sample.holding Sample.dot_alias) eq_refl eq_refl))).
Defined.

Lemma createOptions_without_options_witness :
  (forall r, VUndefined <> VObj r)
  /\ createOptions Sample.posix "**/*.js" VUndefined (State [] None [])
     = (Normal (VObj 0),
        State [[("cwd", VStr "/home/user"); ("globstar", VBool true);
                ("normalized", VBool true)]] None []).
Proof.
  split; [intros r; discriminate|].
  apply (createOptions_without_options Sample.posix "**/*.js" VUndefined
           (State [] None [])).
  intros r; discriminate.
Defined.

Lemma cmd_compiles_present_keys_witness :
  Obj.has (deref (st_heap (Sample.holding Sample.dot_alias)) 0) "hasOwnProperty" = false
  /\ cmd "foo" "f*" (VObj 0) (Sample.holding Sample.dot_alias)
     = (Normal ["-O"; "extglob"; "-c"; script "foo" "f*"],
        Sample.holding Sample.dot_alias).
Proof.
  split; [reflexivity|].
  apply (cmd_compiles_present_keys "foo" "f*" 0 (Sample.holding Sample.dot_alias)).
  reflexivity.
Defined.

Lemma cmd_length_bound_witness :
  NoDup (Obj.keys (deref (st_heap (Sample.holding Sample.null_then_dot)) 0))
  /\ Obj.has (deref (st_heap (Sample.holding Sample.null_then_dot)) 0)
             "hasOwnProperty" = false
  /\ exists args,
       fst (cmd "foo" "f*" (VObj 0) (Sample.holding Sample.null_then_dot))
       = Normal args
       /\ List.length args
          = 2 * List.length
                  (filter is_valid
                     (Obj.keys (deref (st_heap (Sample.holding Sample.null_then_dot)) 0)))
            + 2
       /\ List.length args <= 14.
Proof.
  assert (Nd : NoDup (Obj.keys (deref (st_heap (Sample.holding Sample.null_then_dot)) 0))).
  { simpl; repeat constructor; simpl; intuition discriminate. }
  split; [exact Nd|]; split; [reflexivity|].
  apply (cmd_length_bound "foo" "f*" 0 (Sample.holding Sample.null_then_dot) Nd).
  reflexivity.
Defined.

Lemma bash_spawn_failure_witness :
  isWindows Sample.broken = false
  /\ fst (bash Sample.broken (VStr "foo") (VStr "f*") (VObj 0)
            (Sample.holding Sample.strict))
     = Abrupt (Foreign "spawnSync ENOENT").
Proof.
  split; [reflexivity|].
  eapply eq_trans.
  - eapply (bash_spawn_failure Sample.broken "foo" "f*" (VObj 0) _
              (Sample.holding Sample.strict)); reflexivity.
  - reflexivity.
Defined.

Lemma bash_lenient_never_throws_witness :
  isWindows Sample.broken = false
  /\ is_true (Obj.get (content (Sample.holding Sample.no_options) (VObj 0))
                      "strictErrors") = false
  /\ exists b,
       fst (bash Sample.broken (VStr "foo") (VStr "(") (VObj 0)
              (Sample.holding Sample.no_options))
       = Normal b.
Proof.
  split; [reflexivity|]; split; [reflexivity|].
  apply (bash_lenient_never_throws Sample.broken "foo" "(" (VObj 0)
           (Sample.holding Sample.no_options)); reflexivity.
Defined.


Lemma bash_shell_call_witness :
  isWindows Sample.posix = false
  /\ Obj.has (content (Sample.holding Sample.null_then_dot) (VObj 0))
             "hasOwnProperty" = false
  /\ spawned (snd (bash Sample.posix (VStr "foo") (VStr "f*") (VObj 0)
                     (Sample.holding Sample.null_then_dot)))
     = [("/bin/bash",
         ["-O"; "nullglob"; "-O"; "dotglob"; "-c"; script "foo" "f*"])].
Proof.
  split; [reflexivity|]; split; [reflexivity|].
  exact (proj1 (bash_shell_call Sample.posix "foo" "f*" (VObj 0)
                  (Sample.holding Sample.null_then_dot) eq_refl eq_refl)).
Defined.


Lemma bash_match_selects_witness :
  fst (bash_match Sample.posix (ArrayOf [VStr "bar"; VStr "foo"]) (VStr "f*")
         (VObj 0) (Sample.holding Sample.no_options))
  = Normal [VStr "foo"]
  /\ exists mask,
       List.length mask = 2
       /\ [VStr "foo"] = select [VStr "bar"; VStr "foo"] mask.
Proof.
  split; [reflexivity|].
  apply (bash_match_selects Sample.posix (VStr "f*") (VObj 0)
           [VStr "bar"; VStr "foo"] [VStr "foo"]
           (Sample.holding Sample.no_options)).
  reflexivity.
Defined.

Lemma bash_match_raises_witness :
  live (Sample.holding Sample.no_options) (VObj 0)
  /\ fst (bash_match Sample.posix
            (ArrayOf ([VStr "foo"] ++ VNum 1 :: [VStr "bar"])) (VStr "f*")
            (VObj 0) (Sample.holding Sample.no_options))
     = Abrupt (JsTypeError "expected a string").
Proof.
  assert (Lv : live (Sample.holding Sample.no_options) (VObj 0)) by (simpl; lia).
  split; [exact Lv|].
  apply (bash_match_raises Sample.posix (VStr "f*") (VObj 0)
           [VStr "foo"] [VStr "bar"] (VNum 1)
           (JsTypeError "expected a string")
           (Sample.holding Sample.no_options) Lv).
  - intros y [<- | []]; eexists; reflexivity.
  - reflexivity.
Defined.

Lemma legacy_bash_invocation_witness :
  isWindows Sample.posix = false
  /\ spawned (snd (Legacy.bash Sample.posix (VStr "foo") (VStr "echo true")
                     (VObj 0) (Sample.holding Sample.null_then_dot)))
     = [("/bin/bash", ["-c"; "echo true"])].
Proof.
  split; [reflexivity|].
  exact (proj2 (legacy_bash_invocation Sample.posix "foo" "echo true" (VObj 0)
                  (Sample.holding Sample.null_then_dot) eq_refl)).
Defined.

Lemma legacy_bash_ignores_subject_witness :
  (exists pre post, "echo true" = (pre ++ "echo" ++ post)%string)
  /\ Legacy.bash Sample.posix (VStr "foo") (VStr "echo true") VUndefined
       (State [] None [])
     = Legacy.bash Sample.posix (VStr "bar") (VStr "echo true") VUndefined
         (State [] None []).
Proof.
  assert (H : exists pre post, "echo true" = (pre ++ "echo" ++ post)%string)
    by (now exists "", " true").
  split; [exact H|].
  exact (legacy_bash_ignores_subject Sample.posix "foo" "bar" "echo true"
           VUndefined (State [] None []) H).
Defined.

Lemma legacy_bash_interprets_streams_witness :
  isWindows Sample.broken = false
  /\ fst (Legacy.bash Sample.broken (VStr "foo") (VStr "f*") (VObj 0)
            (Sample.holding Sample.strict))
     = Abrupt (Foreign "spawnSync ENOENT").
Proof.
  split; [reflexivity|].
  exact (legacy_bash_interprets_streams Sample.broken "foo" "f*" (VObj 0)
           (Sample.holding Sample.strict) eq_refl).
Defined.
